(** * uamp-js: envelope canonicalisation, signing and verification

    A shallow embedding of section 2 of [src/index.ts] ("Crypto Helpers"):
    [canonicalJson], [signEnvelope] and [verifyEnvelopeSignature], together
    with the part of ECMAScript's [JSON.stringify] that [canonicalJson]
    relies on (a replacer given as an array of property names).

    Conventions of the model:
    - JavaScript values are the tree type [value]; an object is a list of
      (name, value) entries in insertion order, looked up first match. Only
      own properties exist: no name is taken to denote a member inherited
      from [Object.prototype], and no value carries a [toJSON] method.
    - Strings are sequences of 8-bit characters, ordered by character code;
      [Buffer.from(s)] is the identity on them, so the canonical bytes are
      the string itself.
    - Finite numbers are the integers that print in plain decimal notation.
    - A call that may throw returns a [completion].
    - The hash and the JWS operations come from outside the repository and
      are the fields of a [Provider]; what is assumed of them is stated in
      [ProviderContract]. *)

From Stdlib Require Import String Ascii List ZArith Bool Lia Permutation.
From Stdlib Require Import DecimalString.
Import ListNotations.
Local Open Scope list_scope.
Local Open Scope string_scope.
Set Warnings "-register-all".

(* ------------------------------------------------------------------ *)
(** ** Completions: normal return or a thrown exception                *)
(* ------------------------------------------------------------------ *)

Inductive exn : Type :=
| TypeError                 (* thrown by the runtime (JSON.stringify) *)
| Error (message : string). (* [new Error(message)] *)

Inductive completion (A : Type) : Type :=
| Normal (a : A)
| Throw (e : exn).
Arguments Normal {A} a.
Arguments Throw {A} e.

Definition bind {A B} (c : completion A) (k : A -> completion B) : completion B :=
  match c with
  | Normal a => k a
  | Throw e => Throw e
  end.

Notation "x <- c ;; k" := (bind c (fun x => k))
  (at level 61, c at next level, right associativity).

Definition throws {A} (c : completion A) : bool :=
  match c with Normal _ => false | Throw _ => true end.

(* ------------------------------------------------------------------ *)
(** ** JavaScript values                                               *)
(* ------------------------------------------------------------------ *)

(** Numbers: the integral finite doubles and the three non-finite ones. *)
Inductive number : Type :=
| Finite (z : Z)
| NaN
| Infinity
| NegInfinity.

Inductive value : Type :=
| JUndefined
| JNull
| JBool (b : bool)
| JNum (n : number)
| JBigInt (z : Z)
| JStr (s : string)
| JArr (elems : list value)
| JObj (props : list (string * value)).

Definition object : Type := list (string * value).

(** [o[P]] *)
Fixpoint Get (o : object) (P : string) : value :=
  match o with
  | [] => JUndefined
  | (k, x) :: o' => if String.eqb k P then x else Get o' P
  end.

(** [P in o] for own properties *)
Definition HasOwn (o : object) (P : string) : bool :=
  existsb (fun kv => String.eqb (fst kv) P) o.

(** [Object.keys(o)] *)
Definition Object_keys (o : object) : list string := map fst o.

(** [{ ...o, [P]: v }]: overwrite in place, or append. *)
Fixpoint set_prop (o : object) (P : string) (v : value) : object :=
  match o with
  | [] => [(P, v)]
  | (k, x) :: o' =>
      if String.eqb k P then (k, v) :: o' else (k, x) :: set_prop o' P v
  end.

(** [const { [P]: _, ...rest } = o] *)
Definition rest_without (o : object) (P : string) : object :=
  filter (fun kv => negb (String.eqb (fst kv) P)) o.

(* ------------------------------------------------------------------ *)
(** ** Strings: quoting and the default sort order                     *)
(* ------------------------------------------------------------------ *)

Definition dquote : ascii := "034"%char.
Definition bslash : ascii := "092"%char.

Definition str1 (c : ascii) : string := String c EmptyString.

Definition hex_digit (n : nat) : ascii :=
  if Nat.ltb n 10 then ascii_of_nat (48 + n) else ascii_of_nat (87 + n).

(** One code unit of [QuoteJSONString]. *)
Definition quote_char (c : ascii) : string :=
  let n := nat_of_ascii c in
  if Nat.eqb n 8 then String bslash "b"
  else if Nat.eqb n 9 then String bslash "t"
  else if Nat.eqb n 10 then String bslash "n"
  else if Nat.eqb n 12 then String bslash "f"
  else if Nat.eqb n 13 then String bslash "r"
  else if Nat.eqb n 34 then String bslash (str1 dquote)
  else if Nat.eqb n 92 then String bslash (str1 bslash)
  else if Nat.ltb n 32 then
    String bslash ("u00" ++ String (hex_digit (n / 16)) (str1 (hex_digit (n mod 16))))
  else str1 c.

Fixpoint quote_body (s : string) : string :=
  match s with
  | EmptyString => EmptyString
  | String c s' => quote_char c ++ quote_body s'
  end.

Definition QuoteJSONString (s : string) : string :=
  String dquote (quote_body s ++ str1 dquote).

(** [Number::toString] on the integers printed in plain decimal notation. *)
Definition Number_toString (z : Z) : string :=
  NilZero.string_of_int (Z.to_int z).

(** [Array.prototype.sort()] without a comparator orders strings by code
    unit; on a list of strings the result is the unique sorted
    arrangement, computed here by insertion. *)
Fixpoint sort_insert (x : string) (l : list string) : list string :=
  match l with
  | [] => [x]
  | y :: l' => if String.leb x y then x :: l else y :: sort_insert x l'
  end.

Fixpoint Array_sort (l : list string) : list string :=
  match l with
  | [] => []
  | x :: l' => sort_insert x (Array_sort l')
  end.

(* ------------------------------------------------------------------ *)
(** ** JSON.stringify                                                  *)
(* ------------------------------------------------------------------ *)

(** The replacer array becomes the [PropertyList]: its strings, each kept
    at its first occurrence. *)
Fixpoint PropertyList_of (replacer : list string) : list string :=
  match replacer with
  | [] => []
  | P :: r =>
      P :: filter (fun Q => negb (String.eqb Q P)) (PropertyList_of r)
  end.

Definition join_members (op cl : string) (partial : list string) : string :=
  match partial with
  | [] => op ++ cl
  | _ => op ++ String.concat "," partial ++ cl
  end.

(** The member loop of [SerializeJSONObject]: for each [P] of [K], in the
    order of [K], serialise the property and keep it unless the result is
    undefined. *)
Fixpoint members (ser : string -> completion (option string)) (K : list string)
  : completion (list string) :=
  match K with
  | [] => Normal []
  | P :: K' =>
      strP <- ser P ;;
      rest <- members ser K' ;;
      Normal (match strP with
              | None => rest
              | Some s => (QuoteJSONString P ++ ":" ++ s) :: rest
              end)
  end.

(** [SerializeJSONProperty] once the property value has been read; the
    result [None] stands for undefined. [PropertyList] is [None] when
    [JSON.stringify] was called without a replacer. *)
Fixpoint SerializeJSONProperty (PropertyList : option (list string)) (v : value)
  {struct v} : completion (option string) :=
  match v with
  | JUndefined => Normal None
  | JNull => Normal (Some "null")
  | JBool true => Normal (Some "true")
  | JBool false => Normal (Some "false")
  | JNum (Finite z) => Normal (Some (Number_toString z))
  | JNum _ => Normal (Some "null")
  | JBigInt _ => Throw TypeError
  | JStr s => Normal (Some (QuoteJSONString s))
  | JArr elems =>
      partial <-
        (fix SerializeJSONArray (l : list value) : completion (list string) :=
           match l with
           | [] => Normal []
           | x :: l' =>
               strP <- SerializeJSONProperty PropertyList x ;;
               rest <- SerializeJSONArray l' ;;
               Normal (match strP with None => "null" | Some s => s end :: rest)
           end) elems ;;
      Normal (Some (join_members "[" "]" partial))
  | JObj props =>
      let K := match PropertyList with
               | Some K => K
               | None => PropertyList_of (map fst props)
               end in
      partial <-
        members
          ((fix get (o : list (string * value)) (P : string)
              : completion (option string) :=
              match o with
              | [] => Normal None
              | (k, x) :: o' =>
                  if String.eqb k P
                  then SerializeJSONProperty PropertyList x
                  else get o' P
              end) props) K ;;
      Normal (Some (join_members "{" "}" partial))
  end.

(** [JSON.stringify(v, replacer)] with [replacer] an array of strings, or
    absent. *)
Definition JSON_stringify (v : value) (replacer : option (list string))
  : completion (option string) :=
  SerializeJSONProperty (option_map PropertyList_of replacer) v.

(* ------------------------------------------------------------------ *)
(** ** canonicalJson (index.ts, lines 69-75)                           *)
(* ------------------------------------------------------------------ *)

Definition canonicalJson (obj : object) : completion string :=
  r <- JSON_stringify (JObj obj) (Some (Array_sort (Object_keys obj))) ;;
  match r with
  | Some s => Normal s
  | None => Throw TypeError
  end.

(** Writing expected outputs: [dq] turns every apostrophe into a double
    quote. *)
Fixpoint dq (s : string) : string :=
  match s with
  | EmptyString => EmptyString
  | String c s' =>
      String (if Ascii.eqb c "'"%char then dquote else c) (dq s')
  end.

(* ------------------------------------------------------------------ *)
(** ** The cryptographic provider (node:crypto and jose)               *)
(* ------------------------------------------------------------------ *)

(** What the helpers import: [createHash('sha256')...digest('hex')],
    [new SignJWT(payload).setProtectedHeader({alg}).sign(key)] and the
    compact verification behind [jwtVerify]. [compactVerify] stands for all
    that [jwtVerify] does with a string token: the check of the signature
    under the key and the accepted algorithms, and then the validation of
    the payload's claims; it returns the payload only when all of it
    passes. [ES256_pair priv pub] holds of the pairs
    [generateKeyPair('ES256')] can return, and [header_alg] reads the [alg]
    of a token's protected header. *)
Record Provider : Type := {
  KeyLike : Type;
  sha256_hex : string -> string;
  SignJWT_sign : object -> string -> KeyLike -> completion string;
  compactVerify : string -> KeyLike -> option (list string) -> completion object;
  header_alg : string -> option string;
  ES256_pair : KeyLike -> KeyLike -> Prop
}.

(** The payload the helpers sign: [{ sha256 }]. *)
Definition digest_payload (d : string) : object := [("sha256", JStr d)].

(** What the helpers need from the provider (spec section 6): a token
    signed under ES256 with the private key of a pair verifies under its
    public key, returning the signed payload, whenever ES256 is accepted;
    and verification restricted to a list of algorithms accepts only a
    token whose header declares one of them. *)
Record ProviderContract (P : Provider) : Prop := {
  sign_verify :
    forall priv pub d algorithms,
      ES256_pair P priv pub ->
      In "ES256" algorithms ->
      exists tok,
        SignJWT_sign P (digest_payload d) "ES256" priv = Normal tok /\
        compactVerify P tok pub (Some algorithms) = Normal (digest_payload d);
  verify_allowed :
    forall tok k algorithms payload,
      compactVerify P tok k (Some algorithms) = Normal payload ->
      exists a, header_alg P tok = Some a /\ In a algorithms
}.

Section Helpers.

Variable P : Provider.

(** [jwtVerify(jwt, key, { algorithms })]: anything but a string is
    refused before any cryptography. *)
Definition jwtVerify (jwt : value) (key : KeyLike P)
           (algorithms : option (list string)) : completion object :=
  match jwt with
  | JStr tok => compactVerify P tok key algorithms
  | _ => Throw (Error "Compact JWS must be a string or Uint8Array")
  end.

(** [v === s] for a string [s]. *)
Definition strict_eq_string (v : value) (s : string) : bool :=
  match v with
  | JStr s' => String.eqb s' s
  | _ => false
  end.

(** signEnvelope (index.ts, lines 77-80) *)
Definition signEnvelope (env : object) (key : KeyLike P) : completion string :=
  bytes <- canonicalJson env ;;
  SignJWT_sign P (digest_payload (sha256_hex P bytes)) "ES256" key.

Definition algorithms : list string := ["ES256"; "EdDSA"; "RS256"].

Definition validation_failed : exn := Error "UAMP signature validation failed".

(** Does candidate [k] satisfy both checks of the loop body? *)
Definition key_matches (sig : value) (expected : string) (k : KeyLike P) : bool :=
  match jwtVerify sig k (Some algorithms) with
  | Normal payload => strict_eq_string (Get payload "sha256") expected
  | Throw _ => false
  end.

(** The loop of verifyEnvelopeSignature (lines 86-92). The first
    component of the result lists the keys handed to [jwtVerify], in the
    order of the calls. *)
Fixpoint verify_loop (sig : value) (expected : string) (keys : list (KeyLike P))
  : list (KeyLike P) * completion unit :=
  match keys with
  | [] => ([], Throw validation_failed)
  | k :: keys' =>
      match jwtVerify sig k (Some algorithms) with
      | Normal payload =>
          if strict_eq_string (Get payload "sha256") expected
          then ([k], Normal tt)
          else let (tried, r) := verify_loop sig expected keys' in (k :: tried, r)
      | Throw _ => (* try next key *)
          let (tried, r) := verify_loop sig expected keys' in (k :: tried, r)
      end
  end.

(** verifyEnvelopeSignature (index.ts, lines 82-93), with the keys tried. *)
Definition verifyEnvelopeSignature_trace (env : object) (keys : list (KeyLike P))
  : list (KeyLike P) * completion unit :=
  let sig := Get env "sig" in
  let unsigned := rest_without env "sig" in
  match canonicalJson unsigned with
  | Throw e => ([], Throw e)
  | Normal bytes => verify_loop sig (sha256_hex P bytes) keys
  end.

Definition verifyEnvelopeSignature (env : object) (keys : list (KeyLike P))
  : completion unit :=
  snd (verifyEnvelopeSignature_trace env keys).

(** [{ ...envNoSig, sig }] *)
Definition attach (envNoSig : object) (sig : string) : object :=
  set_prop envNoSig "sig" (JStr sig).

End Helpers.

Arguments jwtVerify P jwt key algorithms : assert.

(** The digest both helpers compute from an envelope (lines 78 and 84):
    signEnvelope signs it, verifyEnvelopeSignature compares it. *)
Definition signed_digest (P : Provider) (env : object) : completion string :=
  bytes <- canonicalJson env ;;
  Normal (sha256_hex P bytes).

(* ------------------------------------------------------------------ *)
(** ** A symbolic provider, for concrete runs                          *)
(* ------------------------------------------------------------------ *)

(** Keys are a role and a name; a token is the key name (one character),
    the algorithm, a dot and the signed digest. Verification succeeds when
    the key is the public key of that name and the algorithm is accepted. *)
Module Symbolic.

Inductive key : Type := Private (name : ascii) | Public (name : ascii).

Fixpoint split_dot (s : string) : option (string * string) :=
  match s with
  | EmptyString => None
  | String c s' =>
      if Ascii.eqb c "."%char then Some (EmptyString, s')
      else match split_dot s' with
           | Some (a, b) => Some (String c a, b)
           | None => None
           end
  end.

Definition sign (payload : object) (alg : string) (k : key) : completion string :=
  match k, Get payload "sha256" with
  | Private n, JStr d => Normal (String n (alg ++ "." ++ d))
  | _, _ => Throw (Error "key or payload not usable")
  end.

Definition alg_of (tok : string) : option string :=
  match tok with
  | String _ rest => option_map fst (split_dot rest)
  | EmptyString => None
  end.

Definition verify (tok : string) (k : key) (algs : option (list string))
  : completion object :=
  match tok, k with
  | String n rest, Public m =>
      match split_dot rest with
      | Some (alg, d) =>
          if Ascii.eqb n m
             && match algs with
                | Some l => existsb (String.eqb alg) l
                | None => true
                end
          then Normal (digest_payload d)
          else Throw (Error "signature verification failed")
      | None => Throw (Error "Invalid Compact JWS")
      end
  | _, _ => Throw (Error "signature verification failed")
  end.

Definition provider : Provider := {|
  KeyLike := key;
  sha256_hex := fun bytes => bytes;
  SignJWT_sign := sign;
  compactVerify := verify;
  header_alg := alg_of;
  ES256_pair := fun priv pub => exists n, priv = Private n /\ pub = Public n
|}.

Definition K1 : key := Private "1".
Definition K1pub : key := Public "1".
Definition K2pub : key := Public "2".

End Symbolic.

(** A provider that tells the stages of jose's jwtVerify apart: the JWS
    signature is checked under the key and the header's algorithm against
    the accepted list, then the claims of the payload are validated, and a
    token whose [exp] lies in the past is refused although its signature
    is good. A token is the key name, the algorithm, a dot, a flag ("x"
    for an [exp] in the past, "-" for none) and the signed digest. *)
Module Dated.

Definition parse (tok : string) : option (ascii * string * bool * string) :=
  match tok with
  | String n rest =>
      match Symbolic.split_dot rest with
      | Some (alg, String flag d) => Some (n, alg, Ascii.eqb flag "x", d)
      | _ => None
      end
  | EmptyString => None
  end.

Definition sign (payload : object) (alg : string) (k : Symbolic.key)
  : completion string :=
  match k, Get payload "sha256" with
  | Symbolic.Private n, JStr d => Normal (String n (alg ++ "." ++ String "-" d))
  | _, _ => Throw (Error "key or payload not usable")
  end.

(** The JWS signature of the token checks under the key. *)
Definition signature_valid (tok : string) (k : Symbolic.key) : bool :=
  match parse tok, k with
  | Some (n, _, _, _), Symbolic.Public m => Ascii.eqb n m
  | _, _ => false
  end.

(** The [sha256] claim of the token's payload. *)
Definition embedded_digest (tok : string) : option string :=
  match parse tok with
  | Some (_, _, _, d) => Some d
  | None => None
  end.

Definition alg_of (tok : string) : option string :=
  match parse tok with
  | Some (_, alg, _, _) => Some alg
  | None => None
  end.

Definition verify (tok : string) (k : Symbolic.key) (algs : option (list string))
  : completion object :=
  match parse tok with
  | Some (_, alg, expired, d) =>
      if signature_valid tok k
         && match algs with
            | Some l => existsb (String.eqb alg) l
            | None => true
            end
      then if expired
           then Throw (Error "exp claim timestamp check failed")
           else Normal (digest_payload d)
      else Throw (Error "signature verification failed")
  | None => Throw (Error "Invalid Compact JWS")
  end.

Definition provider : Provider := {|
  KeyLike := Symbolic.key;
  sha256_hex := fun bytes => bytes;
  SignJWT_sign := sign;
  compactVerify := verify;
  header_alg := alg_of;
  ES256_pair := fun priv pub =>
    exists n, priv = Symbolic.Private n /\ pub = Symbolic.Public n
|}.

End Dated.

(* ------------------------------------------------------------------ *)
(** ** Sample envelopes                                                *)
(* ------------------------------------------------------------------ *)

(** The scenario of the specification, section 8. *)
Definition ping_envelope : object :=
  [ ("id", JStr "urn:uuid:A"); ("ts", JStr "T"); ("from", JStr "alice");
    ("to", JArr [JStr "bob"]); ("intent", JStr "ask");
    ("body", JObj [("type", JStr "text/plain"); ("content", JStr "ping")]) ].

Definition pong_envelope : object :=
  set_prop ping_envelope "body"
    (JObj [("type", JStr "text/plain"); ("content", JStr "pong")]).

(** The envelope of the test "signature covers ext field correctly". *)
Definition traced_envelope : object :=
  [ ("id", JStr "urn:uuid:A"); ("from", JStr "alice");
    ("ext", JObj [("trace", JStr "abc")]) ].

(** Two envelopes that differ only in the insertion order of their
    fields, at the top level and inside [ext]. *)
Definition ext_envelope : object :=
  [ ("id", JStr "urn:uuid:A"); ("from", JStr "alice");
    ("ext", JObj [("id", JStr "x"); ("from", JStr "y")]) ].

Definition ext_envelope_reordered : object :=
  [ ("ext", JObj [("from", JStr "y"); ("id", JStr "x")]);
    ("id", JStr "urn:uuid:A"); ("from", JStr "alice") ].


(* ------------------------------------------------------------------ *)
(** ** Notions used to state the properties                            *)
(* ------------------------------------------------------------------ *)

(** The element loop of [SerializeJSONArray], named. *)
Fixpoint SerializeJSONArray (PropertyList : option (list string)) (l : list value)
  : completion (list string) :=
  match l with
  | [] => Normal []
  | x :: l' =>
      strP <- SerializeJSONProperty PropertyList x ;;
      rest <- SerializeJSONArray PropertyList l' ;;
      Normal (match strP with None => "null" | Some s => s end :: rest)
  end.

(** The same logical value built with another insertion order: entries of
    an object, at any depth, may trade places; array elements keep their
    positions. *)
Inductive reorder : value -> value -> Prop :=
| ro_same v : reorder v v
| ro_arr l1 l2 : reorder_elems l1 l2 -> reorder (JArr l1) (JArr l2)
| ro_obj o1 o2 : reorder_props o1 o2 -> reorder (JObj o1) (JObj o2)
with reorder_elems : list value -> list value -> Prop :=
| re_nil : reorder_elems [] []
| re_cons x y l1 l2 :
    reorder x y -> reorder_elems l1 l2 -> reorder_elems (x :: l1) (y :: l2)
with reorder_props : object -> object -> Prop :=
| rp_nil : reorder_props [] []
| rp_cons k x y o1 o2 :
    reorder x y -> reorder_props o1 o2 ->
    reorder_props ((k, x) :: o1) ((k, y) :: o2)
| rp_swap k1 k2 x1 x2 o :
    k1 <> k2 ->
    reorder_props ((k1, x1) :: (k2, x2) :: o) ((k2, x2) :: (k1, x1) :: o)
| rp_trans o1 o2 o3 :
    reorder_props o1 o2 -> reorder_props o2 o3 -> reorder_props o1 o3.

Scheme reorder_mut := Minimality for reorder Sort Prop
  with reorder_elems_mut := Minimality for reorder_elems Sort Prop
  with reorder_props_mut := Minimality for reorder_props Sort Prop.
Combined Scheme reorder_mutind
  from reorder_mut, reorder_elems_mut, reorder_props_mut.

Definition mem (P : string) (K : list string) : bool := existsb (String.eqb P) K.

(** The value with, in every object at every depth, the properties whose
    names are not in [K] deleted; nothing else changes. *)
Fixpoint prune (K : list string) (v : value) {struct v} : value :=
  match v with
  | JArr elems => JArr (map (prune K) elems)
  | JObj props =>
      JObj ((fix keep (o : list (string * value)) : list (string * value) :=
               match o with
               | [] => []
               | (k, x) :: o' =>
                   if mem k K then (k, prune K x) :: keep o' else keep o'
               end) props)
  | _ => v
  end.

(** The same on the entries of an object. *)
Fixpoint prune_props (K : list string) (o : object) : object :=
  match o with
  | [] => []
  | (k, x) :: o' =>
      if mem k K then (k, prune K x) :: prune_props K o' else prune_props K o'
  end.

(** Every object inside [v], [v] included, has property names in [K] only. *)
Fixpoint names_within (K : list string) (v : value) {struct v} : bool :=
  match v with
  | JArr elems => forallb (names_within K) elems
  | JObj props =>
      forallb (fun kv => mem (fst kv) K && names_within K (snd kv)) props
  | _ => true
  end.



(** No BigInt anywhere in the value. *)
Fixpoint bigint_free (v : value) {struct v} : bool :=
  match v with
  | JBigInt _ => false
  | JArr elems => forallb bigint_free elems
  | JObj props => forallb (fun kv => bigint_free (snd kv)) props
  | _ => true
  end.

(** The candidates a first-match scan looks at: all up to and including
    the first one satisfying [f]. *)
Fixpoint scanned {A} (f : A -> bool) (l : list A) : list A :=
  match l with
  | [] => []
  | x :: l' => if f x then [x] else x :: scanned f l'
  end.

(** The names [SerializeJSONObject] walks through. *)
Definition property_list (PropertyList : option (list string)) (o : object)
  : list string :=
  match PropertyList with
  | Some K => K
  | None => PropertyList_of (map fst o)
  end.

(** The claim that an absent signature is reported at once and under a
    kind of its own. *)
Definition fails_before_any_key_with_own_kind
  (P : Provider) (env : object) (keys : list (KeyLike P)) : Prop :=
  exists e,
    verifyEnvelopeSignature_trace P env keys = ([], Throw e)
    /\ e <> validation_failed.

(** A token signed by another key than the candidate. *)
Definition foreign_token : string := "2ES256.d".

(** A token that declares an algorithm outside the accepted ones. *)
Definition hs256_token : string := "1HS256.d".

(** A token signed by key 1 over a digest that is not the envelope's. *)
Definition stale_token : string := "1ES256.other".

(** A token of the dated provider, signed by key 1 over the digest of the
    scenario envelope, whose [exp] lies in the past; and the same token
    without an [exp]. *)
Definition expired_ping_token : string :=
  dq "1ES256.x{'body':{},'from':'alice','id':'urn:uuid:A','intent':'ask','to':['bob'],'ts':'T'}".

Definition dated_ping_token : string :=
  dq "1ES256.-{'body':{},'from':'alice','id':'urn:uuid:A','intent':'ask','to':['bob'],'ts':'T'}".

(** The claim that a key under which the signature of the token validates
    and whose embedded digest is the recomputed one makes verification
    succeed. *)
Definition succeeds_on_valid_signature_and_digest
  (env : object) (k : Symbolic.key) : Prop :=
  forall tok bytes,
    Get env "sig" = JStr tok ->
    canonicalJson (rest_without env "sig") = Normal bytes ->
    Dated.signature_valid tok k = true ->
    Dated.embedded_digest tok = Some (sha256_hex Dated.provider bytes) ->
    verifyEnvelopeSignature Dated.provider env [k] = Normal tt.

(** Reading back a quoted string: the characters up to the closing quote,
    with escapes undone, and what follows the quote. *)
Definition unhex (c : ascii) : option nat :=
  let n := nat_of_ascii c in
  if Nat.leb 48 n && Nat.leb n 57 then Some (n - 48)
  else if Nat.leb 97 n && Nat.leb n 102 then Some (n - 87)
  else None.

Definition cons_char (c : ascii) (r : option (string * string))
  : option (string * string) :=
  match r with
  | Some (a, rest) => Some (String c a, rest)
  | None => None
  end.

Fixpoint read_quoted_body (s : string) : option (string * string) :=
  match s with
  | EmptyString => None
  | String c s' =>
      if Ascii.eqb c dquote then Some (EmptyString, s')
      else if Ascii.eqb c bslash then
        match s' with
        | EmptyString => None
        | String e s'' =>
            if Ascii.eqb e "b" then cons_char "008" (read_quoted_body s'')
            else if Ascii.eqb e "t" then cons_char "009" (read_quoted_body s'')
            else if Ascii.eqb e "n" then cons_char "010" (read_quoted_body s'')
            else if Ascii.eqb e "f" then cons_char "012" (read_quoted_body s'')
            else if Ascii.eqb e "r" then cons_char "013" (read_quoted_body s'')
            else if Ascii.eqb e dquote then cons_char dquote (read_quoted_body s'')
            else if Ascii.eqb e bslash then cons_char bslash (read_quoted_body s'')
            else if Ascii.eqb e "u" then
              match s'' with
              | String h1 (String h2 (String h3 (String h4 r))) =>
                  match unhex h1, unhex h2, unhex h3, unhex h4 with
                  | Some 0, Some 0, Some hi, Some lo =>
                      cons_char (ascii_of_nat (16 * hi + lo)) (read_quoted_body r)
                  | _, _, _, _ => None
                  end
              | _ => None
              end
            else None
        end
      else cons_char c (read_quoted_body s')
  end.

Definition read_quoted (s : string) : option (string * string) :=
  match s with
  | String c s' => if Ascii.eqb c dquote then read_quoted_body s' else None
  | EmptyString => None
  end.

(** The text before and after one member of a joined list. *)
Fixpoint joined_before (l : list string) : string :=
  match l with
  | [] => EmptyString
  | x :: l' => x ++ "," ++ joined_before l'
  end.

Definition joined_after (l : list string) : string :=
  match l with
  | [] => EmptyString
  | _ => "," ++ String.concat "," l
  end.

(* ------------------------------------------------------------------ *)
(** ** The HTTP client (index.ts, section 3)                           *)
(* ------------------------------------------------------------------ *)

Inductive Intent : Type :=
| ask | inform | propose | confirm | deny
| progress | cancel | subscribe | notify | error.

(** The string an [Intent] is at run time. *)
Definition Intent_string (i : Intent) : string :=
  match i with
  | ask => "ask" | inform => "inform" | propose => "propose"
  | confirm => "confirm" | deny => "deny" | progress => "progress"
  | cancel => "cancel" | subscribe => "subscribe" | notify => "notify"
  | error => "error"
  end.

(** [new Agent({ connect: { rejectUnauthorized } })] *)
Record Agent : Type := { rejectUnauthorized : bool }.

(** The options given to [request]. *)
Record RequestOptions : Type := {
  method : string;
  body : option string;
  headers : list (string * string);
  dispatcher : Agent
}.

(** What [request] resolves to: the status, and what reading the body as
    text gives. *)
Record Response : Type := {
  statusCode : Z;
  body_text : completion string
}.

(** What [send] draws from its surroundings, in the order of the calls:
    [randomUUID()] for the stream, [randomUUID()] for the envelope id and
    [new Date().toISOString()]. *)
Record Ambient : Type := {
  stream_uuid : string;
  id_uuid : string;
  now_iso : string
}.

(** Truthiness of an optional string or boolean. *)
Definition truthy_string (s : option string) : bool :=
  match s with
  | Some (String _ _) => true
  | _ => false
  end.

Definition truthy_bool (b : option bool) : bool :=
  match b with
  | Some true => true
  | _ => false
  end.

(** A default parameter: [intent: Intent = 'ask']. *)
Definition intent_or_ask (intent : option Intent) : Intent :=
  match intent with Some i => i | None => ask end.

Section Client.

Variable P : Provider.

(** undici's [request]. *)
Variable request : string -> RequestOptions -> completion Response.

Record UAMPClientOptions : Type := {
  baseUrl : string;
  key : KeyLike P;
  token : option string;
  insecureTLS : option bool
}.

Record UAMPClient : Type := {
  opts : UAMPClientOptions;
  agent : Agent
}.

(** The constructor (lines 115-118). *)
Definition UAMPClient_new (opts : UAMPClientOptions) : UAMPClient :=
  {| opts := opts;
     agent := {| rejectUnauthorized := negb (truthy_bool (insecureTLS opts)) |} |}.

(** The unsigned envelope [send] builds (lines 125-134). *)
Definition envNoSig_of (amb : Ambient) (bodyText to : string) (intent : Intent)
  : object :=
  [ ("id", JStr ("urn:uuid:" ++ id_uuid amb));
    ("ts", JStr (now_iso amb));
    ("from", JStr "did:web:client.example");
    ("to", JArr [JStr to]);
    ("intent", JStr (Intent_string intent));
    ("stream_id", JStr (stream_uuid amb));
    ("delta_window", JNum (Finite 64));
    ("body", JObj [("type", JStr "text/plain"); ("content", JStr bodyText)]) ].

(** The headers of the request (lines 138-141). *)
Definition headers_of (token : option string) : list (string * string) :=
  let headers := [("content-type", "application/uamp+json;v=1")] in
  match token with
  | Some t =>
      if truthy_string token
      then app headers [("authorization", "Bearer " ++ t)]
      else headers
  | None => headers
  end.

(** What [send] does with the response (lines 149-153). *)
Definition after_response (streamId : string) (res : Response)
  : completion (option string) :=
  if Z.eqb (statusCode res) 202 then Normal (Some streamId)
  else
    body <- body_text res ;;
    Throw (Error ("Unexpected status " ++ Number_toString (statusCode res)
                  ++ ": " ++ body)).

(** UAMPClient.send (lines 123-154); [intent] absent means ['ask']. *)
Definition send (c : UAMPClient) (amb : Ambient)
           (bodyText to : string) (intent : option Intent)
  : completion (option string) :=
  let intent := intent_or_ask intent in
  let streamId := stream_uuid amb in
  let envNoSig := envNoSig_of amb bodyText to intent in
  sig <- signEnvelope P envNoSig (key (opts c)) ;;
  let env := attach envNoSig sig in
  let headers := headers_of (token (opts c)) in
  wire <- JSON_stringify (JObj env) None ;;
  res <- request (baseUrl (opts c) ++ "/v1/messages")
           {| method := "POST"; body := wire; headers := headers;
              dispatcher := agent c |} ;;
  after_response streamId res.

End Client.

Arguments baseUrl {P} _.
Arguments key {P} _.
Arguments token {P} _.
Arguments insecureTLS {P} _.
Arguments opts {P} _.
Arguments agent {P} _.

(** A server that answers every request with the given status and text. *)
Definition answering (status : Z) (text : string)
  : string -> RequestOptions -> completion Response :=
  fun _ _ => Normal {| statusCode := status; body_text := Normal text |}.

Definition demo_client : UAMPClient Symbolic.provider :=
  UAMPClient_new Symbolic.provider
    (Build_UAMPClientOptions Symbolic.provider
       "https://localhost:8443" Symbolic.K1 None (Some true)).

Definition demo_ambient : Ambient :=
  {| stream_uuid := "S"; id_uuid := "A"; now_iso := "T" |}.

(** The scenario envelope signed by key 1 of the symbolic provider, and
    the same envelope with its [id] changed afterwards. *)
Definition ping_token : string :=
  dq "1ES256.{'body':{},'from':'alice','id':'urn:uuid:A','intent':'ask','to':['bob'],'ts':'T'}".

Definition ping_signed : object := attach ping_envelope ping_token.

Definition ping_other_id : object :=
  set_prop ping_envelope "id" (JStr "urn:uuid:B").

(** A signed envelope received with its fields in two different orders. *)
Definition small_signed : object :=
  [ ("sig", JStr (dq "1ES256.{'id':'A','ts':'T'}"));
    ("id", JStr "A"); ("ts", JStr "T") ].

Definition small_signed_reordered : object :=
  [ ("ts", JStr "T"); ("id", JStr "A");
    ("sig", JStr (dq "1ES256.{'id':'A','ts':'T'}")) ].

(** Induction on values that reaches inside arrays and objects. *)
Definition value_nested_ind (Q : value -> Prop)
  (Hundef : Q JUndefined) (Hnull : Q JNull)
  (Hbool : forall b, Q (JBool b)) (Hnum : forall n, Q (JNum n))
  (Hbig : forall z, Q (JBigInt z)) (Hstr : forall s, Q (JStr s))
  (Harr : forall l, Forall Q l -> Q (JArr l))
  (Hobj : forall o, Forall (fun kv => Q (snd kv)) o -> Q (JObj o))
  : forall v, Q v :=
  fix go (v : value) : Q v :=
    match v with
    | JUndefined => Hundef
    | JNull => Hnull
    | JBool b => Hbool b
    | JNum n => Hnum n
    | JBigInt z => Hbig z
    | JStr s => Hstr s
    | JArr l =>
        Harr l ((fix all (l : list value) : Forall Q l :=
                   match l with
                   | [] => Forall_nil Q
                   | x :: l' => Forall_cons x (go x) (all l')
                   end) l)
    | JObj o =>
        Hobj o ((fix all (o : list (string * value))
                   : Forall (fun kv => Q (snd kv)) o :=
                   match o with
                   | [] => Forall_nil _
                   | kv :: o' => Forall_cons kv (go (snd kv)) (all o')
                   end) o)
    end.

(* ------------------------------------------------------------------ *)
(** ** Equations of the serialiser                                     *)
(* ------------------------------------------------------------------ *)

Lemma members_ext f g K :
  (forall P, In P K -> f P = g P) -> members f K = members g K.
Proof.
  induction K as [|P K IH]; intros Hfg; simpl.
  - reflexivity.
  - rewrite (Hfg P (or_introl eq_refl)), IH; [reflexivity|].
    intros Q HQ. apply Hfg. now right.
Qed.

Lemma SerializeJSONProperty_arr K l :
  SerializeJSONProperty K (JArr l) =
  (partial <- SerializeJSONArray K l ;;
   Normal (Some (join_members "[" "]" partial))).
Proof.
  simpl. f_equal.
  induction l as [|x l IH]; simpl; [reflexivity|].
  now rewrite IH.
Qed.

Lemma SerializeJSONProperty_obj K o :
  SerializeJSONProperty K (JObj o) =
  (partial <- members (fun P => SerializeJSONProperty K (Get o P))
                      (property_list K o) ;;
   Normal (Some (join_members "{" "}" partial))).
Proof.
  simpl. f_equal.
  apply members_ext. intros P _.
  induction o as [|[k x] o IH]; simpl; [reflexivity|].
  destruct (String.eqb k P); [reflexivity|exact IH].
Qed.

Lemma canonicalJson_eq obj :
  canonicalJson obj =
  (partial <- members
     (fun P => SerializeJSONProperty
                 (Some (PropertyList_of (Array_sort (Object_keys obj))))
                 (Get obj P))
     (PropertyList_of (Array_sort (Object_keys obj))) ;;
   Normal (join_members "{" "}" partial)).
Proof.
  unfold canonicalJson, JSON_stringify.
  rewrite SerializeJSONProperty_obj. simpl.
  destruct (members _ _); reflexivity.
Qed.

(* ------------------------------------------------------------------ *)
(** ** The sort depends on the set of keys only                        *)
(* ------------------------------------------------------------------ *)

Lemma string_leb_trans a b c :
  String.leb a b = true -> String.leb b c = true -> String.leb a c = true.
Proof.
  unfold String.leb. revert b c.
  induction a as [|x a IH]; intros [|y b] [|z c]; simpl; try easy.
  unfold Ascii.compare.
  destruct (N.compare_spec (N_of_ascii x) (N_of_ascii y)) as [E1|L1|G1];
    destruct (N.compare_spec (N_of_ascii y) (N_of_ascii z)) as [E2|L2|G2];
    destruct (N.compare_spec (N_of_ascii x) (N_of_ascii z)) as [E3|L3|G3];
    try easy; try lia.
  apply IH.
Qed.

Lemma string_leb_false a b : String.leb a b = false -> String.leb b a = true.
Proof.
  intros H. destruct (String.leb_total a b) as [H'|H']; congruence.
Qed.

Lemma sort_insert_comm x y l :
  sort_insert x (sort_insert y l) = sort_insert y (sort_insert x l).
Proof.
  induction l as [|h l IH]; simpl.
  - destruct (String.leb x y) eqn:Exy, (String.leb y x) eqn:Eyx; try reflexivity.
    + now rewrite (String.leb_antisym _ _ Exy Eyx).
    + apply string_leb_false in Exy. congruence.
  - destruct (String.leb y h) eqn:Eyh, (String.leb x h) eqn:Exh; simpl;
      rewrite ?Eyh, ?Exh.
    + destruct (String.leb x y) eqn:Exy, (String.leb y x) eqn:Eyx; try reflexivity.
      * now rewrite (String.leb_antisym _ _ Exy Eyx).
      * apply string_leb_false in Exy. congruence.
    + destruct (String.leb x y) eqn:Exy; [|reflexivity].
      rewrite (string_leb_trans _ _ _ Exy Eyh) in Exh. discriminate.
    + destruct (String.leb y x) eqn:Eyx; [|reflexivity].
      rewrite (string_leb_trans _ _ _ Eyx Exh) in Eyh. discriminate.
    + now rewrite IH.
Qed.

Lemma Array_sort_Permutation l l' :
  Permutation l l' -> Array_sort l = Array_sort l'.
Proof.
  induction 1; simpl.
  - reflexivity.
  - now f_equal.
  - apply sort_insert_comm.
  - congruence.
Qed.

(* ------------------------------------------------------------------ *)
(** ** Insertion order is invisible to a whitelisted serialisation     *)
(* ------------------------------------------------------------------ *)

Lemma reorder_sound :
  (forall v1 v2, reorder v1 v2 ->
     forall K, SerializeJSONProperty (Some K) v1 = SerializeJSONProperty (Some K) v2)
  /\ (forall l1 l2, reorder_elems l1 l2 ->
     forall K, SerializeJSONArray (Some K) l1 = SerializeJSONArray (Some K) l2)
  /\ (forall o1 o2, reorder_props o1 o2 ->
     (forall K P, SerializeJSONProperty (Some K) (Get o1 P)
                  = SerializeJSONProperty (Some K) (Get o2 P))
     /\ Permutation (map fst o1) (map fst o2)).
Proof.
  apply reorder_mutind.
  - reflexivity.
  - intros l1 l2 _ IH K. now rewrite !SerializeJSONProperty_arr, IH.
  - intros o1 o2 _ [IH _] K. rewrite !SerializeJSONProperty_obj. simpl.
    now rewrite (members_ext _ _ K (fun P _ => IH K P)).
  - reflexivity.
  - intros x y l1 l2 _ IHx _ IHl K. simpl. now rewrite IHx, IHl.
  - split; [reflexivity|constructor].
  - intros k x y o1 o2 _ IHx _ [IHo IHp]. split.
    + intros K P. simpl. destruct (String.eqb k P); [apply IHx|apply IHo].
    + simpl. now constructor.
  - intros k1 k2 x1 x2 o Hne. split.
    + intros K P. simpl.
      destruct (String.eqb_spec k1 P), (String.eqb_spec k2 P);
        try reflexivity. congruence.
    + simpl. constructor.
  - intros o1 o2 o3 _ [IH1 IP1] _ [IH2 IP2]. split.
    + intros K P. now rewrite IH1.
    + now transitivity (map fst o2).
Qed.

Lemma canonicalJson_reorder_props o1 o2 :
  reorder_props o1 o2 -> canonicalJson o1 = canonicalJson o2.
Proof.
  intros H. destruct reorder_sound as (_ & _ & Hp).
  destruct (Hp _ _ H) as [Hget Hperm].
  rewrite !canonicalJson_eq. unfold Object_keys.
  rewrite (Array_sort_Permutation _ _ Hperm).
  now rewrite (members_ext _ _ _ (fun P _ => Hget _ P)).
Qed.

Lemma reorder_props_refl o : reorder_props o o.
Proof.
  induction o as [|[k x] o IH]; constructor; [constructor|exact IH].
Qed.

(* ------------------------------------------------------------------ *)
(** ** The replacer array is a whitelist at every depth                *)
(* ------------------------------------------------------------------ *)

Lemma mem_In P K : mem P K = true <-> In P K.
Proof.
  unfold mem. rewrite existsb_exists. split.
  - intros (Q & HQ & E). apply String.eqb_eq in E. now subst.
  - intros H. exists P. split; [exact H|apply String.eqb_refl].
Qed.

Lemma filter_all {A} (f : A -> bool) l :
  (forall x, In x l -> f x = true) -> filter f l = l.
Proof.
  induction l as [|x l IH]; simpl; intros H; [reflexivity|].
  rewrite (H x (or_introl eq_refl)), IH; [reflexivity|].
  intros y Hy. apply H. now right.
Qed.

Lemma PropertyList_of_In l P : In P (PropertyList_of l) <-> In P l.
Proof.
  induction l as [|Q l IH]; simpl; [tauto|].
  rewrite filter_In, IH, negb_true_iff, String.eqb_neq.
  destruct (string_dec Q P); [subst; tauto|].
  split; [tauto|]. intros [H|H]; [tauto|]. right. split; congruence.
Qed.

Lemma PropertyList_of_NoDup l : NoDup (PropertyList_of l).
Proof.
  induction l as [|Q l IH]; simpl; constructor.
  - rewrite filter_In, negb_true_iff, String.eqb_neq. tauto.
  - now apply NoDup_filter.
Qed.

Lemma Get_not_own o P : HasOwn o P = false -> Get o P = JUndefined.
Proof.
  unfold HasOwn.
  induction o as [|[k x] o IH]; simpl; [reflexivity|].
  destruct (String.eqb k P); simpl; [discriminate|exact IH].
Qed.

Lemma Get_Forall (Q : value -> Prop) o P :
  Forall (fun kv => Q (snd kv)) o -> HasOwn o P = true -> Q (Get o P).
Proof.
  unfold HasOwn.
  induction 1 as [|[k x] o Hx _ IH]; simpl; [discriminate|].
  destruct (String.eqb k P); simpl; [intros _; exact Hx|exact IH].
Qed.

Lemma prune_obj K o : prune K (JObj o) = JObj (prune_props K o).
Proof.
  simpl. f_equal.
  induction o as [|[k x] o IH]; simpl; [reflexivity|].
  destruct (mem k K); now rewrite IH.
Qed.

Lemma Get_prune_props K o P :
  mem P K = true -> Get (prune_props K o) P = prune K (Get o P).
Proof.
  intros HP.
  induction o as [|[k x] o IH]; simpl; [reflexivity|].
  destruct (mem k K) eqn:Hk; simpl.
  - destruct (String.eqb k P); [reflexivity|exact IH].
  - destruct (String.eqb_spec k P) as [->|_]; [congruence|exact IH].
Qed.

Lemma prune_props_keys K o :
  (forall k, In k (Object_keys o) -> mem k K = true) ->
  Object_keys (prune_props K o) = Object_keys o.
Proof.
  unfold Object_keys.
  induction o as [|[k x] o IH]; simpl; intros H; [reflexivity|].
  rewrite (H k (or_introl eq_refl)). simpl. rewrite IH; [reflexivity|].
  intros k' Hk'. apply H. now right.
Qed.

(** A whitelisted serialisation never looks at what [prune] deletes. *)
Lemma SerializeJSONProperty_prune v :
  forall K K', (forall P, In P K -> mem P K' = true) ->
    SerializeJSONProperty (Some K) (prune K' v) = SerializeJSONProperty (Some K) v.
Proof.
  induction v as [| | | | | |l IH|o IH] using value_nested_ind;
    intros K K' Hincl; try reflexivity.
  - change (prune K' (JArr l)) with (JArr (map (prune K') l)).
    rewrite !SerializeJSONProperty_arr. f_equal.
    induction IH as [|x l Hx _ IHl]; simpl; [reflexivity|].
    now rewrite (Hx K K' Hincl), IHl.
  - rewrite prune_obj, !SerializeJSONProperty_obj. simpl. f_equal.
    apply members_ext. intros P HP.
    rewrite Get_prune_props by now apply Hincl.
    destruct (HasOwn o P) eqn:Hown.
    + exact (Get_Forall
               (fun x => forall K K', (forall P, In P K -> mem P K' = true) ->
                  SerializeJSONProperty (Some K) (prune K' x)
                  = SerializeJSONProperty (Some K) x)
               o P IH Hown K K' Hincl).
    + now rewrite Get_not_own.
Qed.

Lemma names_within_prune v : forall K, names_within K (prune K v) = true.
Proof.
  induction v as [| | | | | |l IH|o IH] using value_nested_ind;
    intros K; try reflexivity.
  - simpl. rewrite forallb_forall. intros y Hy.
    apply in_map_iff in Hy. destruct Hy as (x & <- & Hx).
    rewrite Forall_forall in IH. now apply IH.
  - rewrite prune_obj. simpl.
    induction IH as [|[k x] o Hx _ IHo]; simpl; [reflexivity|].
    destruct (mem k K) eqn:Hk; simpl; [|exact IHo].
    simpl in Hx. now rewrite Hk, (Hx K), IHo.
Qed.

(* ------------------------------------------------------------------ *)
(** ** Non-finite numbers and failures of the serialiser               *)
(* ------------------------------------------------------------------ *)





Lemma members_Normal f K :
  (forall P, In P K -> exists r, f P = Normal r) ->
  exists l, members f K = Normal l.
Proof.
  induction K as [|P K IH]; simpl; intros H; [now eexists|].
  destruct (H P (or_introl eq_refl)) as [r ->].
  destruct IH as [l ->]; [intros Q HQ; apply H; now right|].
  simpl. now eexists.
Qed.

Lemma bigint_free_Get o P :
  forallb (fun kv => bigint_free (snd kv)) o = true ->
  bigint_free (Get o P) = true.
Proof.
  induction o as [|[k x] o IH]; simpl; [reflexivity|].
  rewrite andb_true_iff. intros [Hx Ho].
  destruct (String.eqb k P); [exact Hx|exact (IH Ho)].
Qed.

Lemma SerializeJSONProperty_total v :
  forall K, bigint_free v = true -> exists r, SerializeJSONProperty K v = Normal r.
Proof.
  induction v as [| |b|n| | |l IH|o IH] using value_nested_ind;
    intros K Hfree; try discriminate; try (simpl; now eexists).
  - destruct b; simpl; now eexists.
  - destruct n; simpl; now eexists.
  - rewrite SerializeJSONProperty_arr. simpl in Hfree.
    assert (exists p, SerializeJSONArray K l = Normal p) as [p ->].
    { induction IH as [|x l Hx _ IHl]; simpl; [now eexists|].
      simpl in Hfree. apply andb_true_iff in Hfree. destruct Hfree as [Fx Fl].
      destruct (Hx K Fx) as [r ->]. destruct (IHl Fl) as [p ->].
      simpl. now eexists. }
    simpl. now eexists.
  - rewrite SerializeJSONProperty_obj. simpl in Hfree.
    assert (Hm : exists p,
               members (fun P => SerializeJSONProperty K (Get o P))
                       (property_list K o) = Normal p).
    { apply members_Normal. intros P _. destruct (HasOwn o P) eqn:Hown.
      - exact (Get_Forall
                 (fun x => forall K, bigint_free x = true ->
                    exists r, SerializeJSONProperty K x = Normal r)
                 o P IH Hown K (bigint_free_Get o P Hfree)).
      - rewrite Get_not_own by assumption. simpl. now exists None. }
    destruct Hm as [p ->]. simpl. now eexists.
Qed.

Lemma canonicalJson_total obj :
  bigint_free (JObj obj) = true -> exists bytes, canonicalJson obj = Normal bytes.
Proof.
  intros Hfree. rewrite canonicalJson_eq.
  assert (Hm : exists p,
             members
               (fun P => SerializeJSONProperty
                           (Some (PropertyList_of (Array_sort (Object_keys obj))))
                           (Get obj P))
               (PropertyList_of (Array_sort (Object_keys obj))) = Normal p).
  { apply members_Normal. intros P _. apply SerializeJSONProperty_total.
    now apply bigint_free_Get. }
  destruct Hm as [p ->]. simpl. now eexists.
Qed.

(* ------------------------------------------------------------------ *)
(** ** The verification loop                                           *)
(* ------------------------------------------------------------------ *)

Lemma scanned_prefix {A} (f : A -> bool) l : exists rest, l = (scanned f l ++ rest)%list.
Proof.
  induction l as [|x l [rest IH]]; simpl.
  - now exists [].
  - destruct (f x); simpl.
    + now exists l.
    + exists rest. now f_equal.
Qed.

Lemma scanned_none {A} (f : A -> bool) l :
  existsb f l = false -> scanned f l = l.
Proof.
  induction l as [|x l IH]; simpl; [reflexivity|].
  destruct (f x); simpl; [discriminate|]. intros H. now rewrite IH.
Qed.

Lemma verify_loop_spec P sig expected keys :
  verify_loop P sig expected keys =
  (scanned (key_matches P sig expected) keys,
   if existsb (key_matches P sig expected) keys
   then Normal tt else Throw validation_failed).
Proof.
  induction keys as [|k keys IH]; simpl; [reflexivity|].
  unfold key_matches at 1 3.
  destruct (jwtVerify P sig k (Some algorithms)) as [payload|e].
  - destruct (strict_eq_string (Get payload "sha256") expected);
      [reflexivity|]. now rewrite IH.
  - now rewrite IH.
Qed.

Lemma verify_loop_ext P sig sig' expected keys :
  (forall k, jwtVerify P sig k (Some algorithms)
             = jwtVerify P sig' k (Some algorithms)) ->
  verify_loop P sig expected keys = verify_loop P sig' expected keys.
Proof.
  intros H. induction keys as [|k keys IH]; simpl; [reflexivity|].
  now rewrite H, IH.
Qed.

Lemma existsb_false_all {A} (f : A -> bool) l :
  (forall x, f x = false) -> existsb f l = false.
Proof.
  intros H. induction l as [|x l IH]; simpl; [reflexivity|].
  now rewrite H, IH.
Qed.

Lemma Get_set_prop o P v : Get (set_prop o P v) P = v.
Proof.
  induction o as [|[k x] o IH]; simpl.
  - now rewrite String.eqb_refl.
  - destruct (String.eqb k P) eqn:E; simpl; rewrite E; [reflexivity|exact IH].
Qed.

Lemma rest_without_set_prop o P v :
  HasOwn o P = false -> rest_without (set_prop o P v) P = o.
Proof.
  unfold HasOwn, rest_without.
  induction o as [|[k x] o IH]; simpl.
  - now rewrite String.eqb_refl.
  - destruct (String.eqb k P) eqn:E; simpl; [discriminate|].
    intros H. rewrite E. simpl. now rewrite IH.
Qed.

Lemma rest_without_absent o P : HasOwn o P = false -> rest_without o P = o.
Proof.
  unfold HasOwn, rest_without. intros H. apply filter_all.
  intros kv Hkv. apply negb_true_iff.
  destruct (String.eqb (fst kv) P) eqn:E; [|reflexivity].
  assert (existsb (fun kv => String.eqb (fst kv) P) o = true)
    by (apply existsb_exists; now exists kv).
  congruence.
Qed.

(** Signing an unsigned envelope and verifying the result against any
    candidate list that holds the public key. *)
Lemma verify_signed P (C : ProviderContract P) E E' priv pub keys tok :
  HasOwn E' "sig" = false ->
  canonicalJson E' = canonicalJson E ->
  ES256_pair P priv pub -> In pub keys ->
  signEnvelope P E priv = Normal tok ->
  verifyEnvelopeSignature P (attach E' tok) keys = Normal tt.
Proof.
  intros Hunsigned Hcanon Hpair Hin Hsign.
  unfold signEnvelope in Hsign.
  destruct (canonicalJson E) as [bytes|e] eqn:Hbytes; simpl in Hsign;
    [|discriminate].
  destruct (sign_verify P C priv pub (sha256_hex P bytes) algorithms Hpair)
    as (tok' & Hs & Hv); [now left|].
  rewrite Hs in Hsign. inversion Hsign; subst tok'. clear Hsign.
  unfold verifyEnvelopeSignature, verifyEnvelopeSignature_trace, attach.
  rewrite Get_set_prop, rest_without_set_prop, Hcanon by assumption.
  rewrite verify_loop_spec. simpl.
  replace (existsb _ keys) with true; [reflexivity|].
  symmetry. apply existsb_exists. exists pub. split; [assumption|].
  unfold key_matches. simpl. rewrite Hv. simpl. apply String.eqb_refl.
Qed.

Lemma sort_insert_In x l P : In P (sort_insert x l) <-> P = x \/ In P l.
Proof.
  induction l as [|y l IH]; simpl.
  - intuition congruence.
  - destruct (String.leb x y); simpl; rewrite ?IH; intuition congruence.
Qed.

Lemma Array_sort_In l P : In P (Array_sort l) <-> In P l.
Proof.
  induction l as [|x l IH]; simpl; [tauto|].
  rewrite sort_insert_In, IH. intuition congruence.
Qed.

Lemma canonicalJson_prune obj :
  canonicalJson (prune_props (Object_keys obj) obj) = canonicalJson obj.
Proof.
  assert (Hkeys : forall k, In k (Object_keys obj) -> mem k (Object_keys obj) = true)
    by (intros k; apply mem_In).
  unfold canonicalJson, JSON_stringify.
  rewrite prune_props_keys by assumption. simpl option_map.
  rewrite <- prune_obj.
  rewrite SerializeJSONProperty_prune; [reflexivity|].
  intros P HP. apply mem_In.
  apply (proj1 (PropertyList_of_In _ _)) in HP.
  exact (proj1 (Array_sort_In _ _) HP).
Qed.




Lemma strict_eq_string_true v s : strict_eq_string v s = true <-> v = JStr s.
Proof.
  destruct v; simpl; try (split; intros H; discriminate H).
  rewrite String.eqb_eq. split; congruence.
Qed.

Lemma key_matches_true P sig expected k :
  key_matches P sig expected k = true <->
  exists payload,
    jwtVerify P sig k (Some algorithms) = Normal payload
    /\ Get payload "sha256" = JStr expected.
Proof.
  unfold key_matches.
  destruct (jwtVerify P sig k (Some algorithms)) as [payload|e].
  - rewrite strict_eq_string_true. split.
    + intros H. now exists payload.
    + intros (payload' & E & H). inversion E; now subst.
  - split; [discriminate|]. intros (payload' & E & _). discriminate E.
Qed.

Lemma key_matches_false P sig expected k :
  (forall payload,
      jwtVerify P sig k (Some algorithms) = Normal payload ->
      Get payload "sha256" <> JStr expected) ->
  key_matches P sig expected k = false.
Proof.
  intros H. destruct (key_matches P sig expected k) eqn:E; [|reflexivity].
  apply key_matches_true in E. destruct E as (payload & Hv & Hd).
  destruct (H payload Hv Hd).
Qed.

Lemma scanned_first {A} (f : A -> bool) before k after :
  (forall x, In x before -> f x = false) -> f k = true ->
  scanned f (before ++ k :: after)%list = (before ++ [k])%list
  /\ existsb f (before ++ k :: after)%list = true.
Proof.
  intros Hb Hk.
  induction before as [|x before IH]; simpl.
  - now rewrite Hk.
  - rewrite (Hb x (or_introl eq_refl)). simpl.
    destruct IH as [-> ->]; [intros y Hy; apply Hb; now right|]. now split.
Qed.

Lemma existsb_false_on {A} (f : A -> bool) l :
  (forall x, In x l -> f x = false) -> existsb f l = false.
Proof.
  induction l as [|x l IH]; simpl; intros H; [reflexivity|].
  rewrite (H x (or_introl eq_refl)), IH; [reflexivity|].
  intros y Hy. apply H. now right.
Qed.

Lemma symbolic_contract : ProviderContract Symbolic.provider.
Proof.
  split.
  - intros priv pub d algs (n & -> & ->) Hin.
    exists (String n ("ES256." ++ d)). split; [reflexivity|].
    simpl. rewrite Ascii.eqb_refl. simpl.
    replace (existsb _ algs) with true; [reflexivity|].
    symmetry. apply existsb_exists. exists "ES256". now split.
  - intros tok k algs payload. simpl. unfold Symbolic.verify, Symbolic.alg_of.
    destruct tok as [|n rest]; [discriminate|].
    destruct k as [m|m]; [discriminate|].
    destruct (Symbolic.split_dot rest) as [[alg d]|]; [|discriminate].
    destruct (Ascii.eqb n m); simpl; [|discriminate].
    destruct (existsb (String.eqb alg) algs) eqn:E; [|discriminate].
    intros _. exists alg. split; [reflexivity|].
    apply existsb_exists in E. destruct E as (a & Ha & Ea).
    apply String.eqb_eq in Ea. now subst.
Qed.

Lemma dated_contract : ProviderContract Dated.provider.
Proof.
  split.
  - intros priv pub d algs (n & -> & ->) Hin.
    exists (String n ("ES256." ++ String "-" d)). split; [reflexivity|].
    simpl. unfold Dated.verify, Dated.signature_valid. simpl.
    rewrite Ascii.eqb_refl. simpl.
    replace (existsb _ algs) with true; [reflexivity|].
    symmetry. apply existsb_exists. exists "ES256". now split.
  - intros tok k algs payload. simpl. unfold Dated.verify, Dated.alg_of.
    destruct (Dated.parse tok) as [[[[n alg] expired] d]|]; [|discriminate].
    destruct (Dated.signature_valid tok k); simpl; [|discriminate].
    destruct (existsb (String.eqb alg) algs) eqn:E; [|discriminate].
    intros _. exists alg. split; [reflexivity|].
    apply existsb_exists in E. destruct E as (a & Ha & Ea).
    apply String.eqb_eq in Ea. now subst.
Qed.

Lemma signEnvelope_signs_digest P env key :
  signEnvelope P env key
  = (d <- signed_digest P env ;; SignJWT_sign P (digest_payload d) "ES256" key).
Proof.
  unfold signEnvelope, signed_digest. now destruct (canonicalJson env).
Qed.

(* ------------------------------------------------------------------ *)
(** ** Properties of canonicalJson                                     *)
(* ------------------------------------------------------------------ *)

(** C1. The specification asks for a canonical form that follows the whole
    nested structure. On the scenario envelope the code writes the [body]
    object, which holds [type] and [content], as the empty object, and an
    extension map holding [trace] likewise: the sorted top-level names are
    in order, but nothing below them is serialised unless its name is also
    a top-level name. *)
Theorem canonicalJson_ping_body_empty :
  Get ping_envelope "body"
    = JObj [("type", JStr "text/plain"); ("content", JStr "ping")]
  /\ canonicalJson ping_envelope
    = Normal (dq "{'body':{},'from':'alice','id':'urn:uuid:A','intent':'ask','to':['bob'],'ts':'T'}")
  /\ Get traced_envelope "ext" = JObj [("trace", JStr "abc")]
  /\ canonicalJson traced_envelope
    = Normal (dq "{'ext':{},'from':'alice','id':'urn:uuid:A'}").
Proof. repeat split. Qed.

(** C3. Two envelopes that differ in the single nested field
    [body.content] ("ping" against "pong") have the same canonical bytes. *)
Theorem canonicalJson_collision_on_body_content :
  pong_envelope
    = set_prop ping_envelope "body"
        (JObj [("type", JStr "text/plain"); ("content", JStr "pong")])
  /\ Get pong_envelope "body" <> Get ping_envelope "body"
  /\ canonicalJson pong_envelope = canonicalJson ping_envelope.
Proof.
  split; [reflexivity|]. split; [|reflexivity].
  simpl. intros H. inversion H.
Qed.

(** C9. Determinism: canonicalJson is a function of the envelope, and two
    envelopes that are the same logical value built with different
    insertion orders, at the top level or inside nested objects such as
    the extension map, have identical canonical bytes. *)
Theorem canonicalJson_insertion_order_independent E1 E2 :
  reorder (JObj E1) (JObj E2) -> canonicalJson E1 = canonicalJson E2.
Proof.
  intros H. inversion H; subst.
  - reflexivity.
  - now apply canonicalJson_reorder_props.
Qed.

Lemma canonicalJson_insertion_order_independent_witness :
  canonicalJson ext_envelope = canonicalJson ext_envelope_reordered.
Proof.
  apply (canonicalJson_insertion_order_independent
           ext_envelope ext_envelope_reordered).
  apply ro_obj.
  apply rp_trans with
    (o2 := [("id", JStr "urn:uuid:A");
            ("ext", JObj [("id", JStr "x"); ("from", JStr "y")]);
            ("from", JStr "alice")]).
  { apply rp_cons; [apply ro_same|]. apply rp_swap. discriminate. }
  apply rp_trans with
    (o2 := [("ext", JObj [("id", JStr "x"); ("from", JStr "y")]);
            ("id", JStr "urn:uuid:A"); ("from", JStr "alice")]).
  { apply rp_swap. discriminate. }
  apply rp_cons; [|apply reorder_props_refl].
  apply ro_obj. apply rp_swap. discriminate.
Defined.

(** C10. The sorted list of top-level names is the replacer array, hence
    a whitelist at every depth: deleting from every nested object, however
    deep, the properties whose names are not top-level names leaves the
    canonical bytes, and so the signed digest, unchanged, and what is left
    holds nested properties under top-level names only. Envelopes with the
    same top-level names that agree after this deletion therefore get the
    same canonical bytes and the same signed digest. *)
Theorem canonicalJson_whitelists_nested_properties obj :
  Object_keys (prune_props (Object_keys obj) obj) = Object_keys obj
  /\ names_within (Object_keys obj) (JObj (prune_props (Object_keys obj) obj))
     = true
  /\ canonicalJson (prune_props (Object_keys obj) obj) = canonicalJson obj
  /\ (forall P,
        signed_digest P (prune_props (Object_keys obj) obj) = signed_digest P obj)
  /\ (forall obj',
        Object_keys obj' = Object_keys obj ->
        prune_props (Object_keys obj) obj' = prune_props (Object_keys obj) obj ->
        canonicalJson obj' = canonicalJson obj
        /\ forall P, signed_digest P obj' = signed_digest P obj).
Proof.
  split; [|split; [|split; [|split]]].
  - apply prune_props_keys. intros k. apply mem_In.
  - rewrite <- prune_obj. apply names_within_prune.
  - apply canonicalJson_prune.
  - intros P. unfold signed_digest. now rewrite canonicalJson_prune.
  - intros obj' Hkeys Hprune.
    assert (E : canonicalJson obj' = canonicalJson obj).
    { rewrite <- (canonicalJson_prune obj'), <- (canonicalJson_prune obj).
      now rewrite Hkeys, Hprune. }
    split; [exact E|]. intros P. unfold signed_digest. now rewrite E.
Qed.

Lemma canonicalJson_whitelists_nested_properties_witness :
  canonicalJson pong_envelope = canonicalJson ping_envelope
  /\ forall P, signed_digest P pong_envelope = signed_digest P ping_envelope.
Proof.
  apply (proj2 (proj2 (proj2 (proj2
           (canonicalJson_whitelists_nested_properties ping_envelope))))
           pong_envelope); reflexivity.
Defined.



(* ------------------------------------------------------------------ *)
(** ** Properties of signEnvelope and verifyEnvelopeSignature          *)
(* ------------------------------------------------------------------ *)

(** C2. On the scenario of the specification, changing [body.content]
    from "ping" to "pong" after signing goes unnoticed: the envelope
    carrying the signature of the original still verifies under the
    signer's public key, with any provider that honours its contract. *)
Theorem tampered_body_content_still_verifies
  P (C : ProviderContract P) priv pub tok :
  ES256_pair P priv pub ->
  signEnvelope P ping_envelope priv = Normal tok ->
  verifyEnvelopeSignature P (attach pong_envelope tok) [pub] = Normal tt.
Proof.
  intros Hpair Hsign.
  apply (verify_signed P C ping_envelope pong_envelope priv pub [pub] tok);
    try assumption; try reflexivity.
  now left.
Qed.

Lemma tampered_body_content_still_verifies_witness :
  verifyEnvelopeSignature Symbolic.provider
    (attach pong_envelope
       (dq "1ES256.{'body':{},'from':'alice','id':'urn:uuid:A','intent':'ask','to':['bob'],'ts':'T'}"))
    [Symbolic.K1pub] = Normal tt.
Proof.
  apply (tampered_body_content_still_verifies
           Symbolic.provider symbolic_contract Symbolic.K1 Symbolic.K1pub).
  - exists "1"%char. split; reflexivity.
  - reflexivity.
Defined.

(** C4 (counterexample). With the signature absent, the candidate key is
    still handed to jwtVerify, and the error thrown is the one thrown when
    a signature is present but no key matches. *)
Lemma missing_signature_counterexample :
  HasOwn ping_envelope "sig" = false
  /\ verifyEnvelopeSignature_trace Symbolic.provider ping_envelope
       [Symbolic.K1pub]
     = ([Symbolic.K1pub], Throw validation_failed)
  /\ verifyEnvelopeSignature_trace Symbolic.provider
       (attach ping_envelope foreign_token) [Symbolic.K1pub]
     = ([Symbolic.K1pub], Throw validation_failed)
  /\ ~ fails_before_any_key_with_own_kind Symbolic.provider ping_envelope
        [Symbolic.K1pub].
Proof.
  repeat split.
  intros (e & H & Hne). discriminate H.
Qed.

(** C4 (amended). For every envelope without a [sig] field verification is
    rejected, yet neither at once nor under a kind of its own: when the
    envelope canonicalises, every candidate key is tried in order, each
    attempt fails, and the error is the generic one of a failed match;
    when canonicalisation throws, that exception is passed on. *)
Theorem missing_signature_rejected_after_all_keys P env keys :
  HasOwn env "sig" = false ->
  throws (verifyEnvelopeSignature P env keys) = true
  /\ verifyEnvelopeSignature_trace P env keys
     = match canonicalJson env with
       | Normal _ => (keys, Throw validation_failed)
       | Throw e => ([], Throw e)
       end.
Proof.
  intros Habsent.
  assert (E : verifyEnvelopeSignature_trace P env keys
              = match canonicalJson env with
                | Normal _ => (keys, Throw validation_failed)
                | Throw e => ([], Throw e)
                end).
  { unfold verifyEnvelopeSignature_trace.
    rewrite rest_without_absent, Get_not_own by assumption.
    destruct (canonicalJson env) as [bytes|e]; [|reflexivity].
    rewrite verify_loop_spec.
    assert (Hnone : existsb (key_matches P JUndefined (sha256_hex P bytes)) keys
                    = false) by now apply existsb_false_all.
    now rewrite Hnone, scanned_none. }
  split; [|exact E].
  unfold verifyEnvelopeSignature. rewrite E.
  now destruct (canonicalJson env).
Qed.

Lemma missing_signature_rejected_after_all_keys_witness :
  verifyEnvelopeSignature_trace Symbolic.provider ping_envelope
    [Symbolic.K2pub; Symbolic.K1pub]
  = ([Symbolic.K2pub; Symbolic.K1pub], Throw validation_failed).
Proof.
  apply (proj2 (missing_signature_rejected_after_all_keys
                  Symbolic.provider ping_envelope
                  [Symbolic.K2pub; Symbolic.K1pub] eq_refl)).
Defined.

(** C5. Round trip: for an unsigned envelope and a valid ES256 key pair,
    the envelope with the token returned by signEnvelope attached as [sig]
    verifies against every candidate list that holds the public key; and
    signEnvelope does return a token for every envelope free of BigInt
    values. *)
Theorem sign_then_verify_succeeds
  P (C : ProviderContract P) E priv pub keys :
  HasOwn E "sig" = false ->
  ES256_pair P priv pub ->
  In pub keys ->
  (forall tok,
      signEnvelope P E priv = Normal tok ->
      verifyEnvelopeSignature P (attach E tok) keys = Normal tt)
  /\ (bigint_free (JObj E) = true ->
      exists tok, signEnvelope P E priv = Normal tok).
Proof.
  intros Hunsigned Hpair Hin. split.
  - intros tok Hsign.
    now apply (verify_signed P C E E priv pub keys tok).
  - intros Hfree. destruct (canonicalJson_total E Hfree) as [bytes Hb].
    destruct (sign_verify P C priv pub (sha256_hex P bytes) algorithms Hpair)
      as (tok & Hs & _); [now left|].
    exists tok. unfold signEnvelope. now rewrite Hb.
Qed.

Lemma sign_then_verify_succeeds_witness :
  verifyEnvelopeSignature Symbolic.provider
    (attach ping_envelope
       (dq "1ES256.{'body':{},'from':'alice','id':'urn:uuid:A','intent':'ask','to':['bob'],'ts':'T'}"))
    [Symbolic.K2pub; Symbolic.K1pub] = Normal tt.
Proof.
  apply (proj1 (sign_then_verify_succeeds
                  Symbolic.provider symbolic_contract ping_envelope
                  Symbolic.K1 Symbolic.K1pub [Symbolic.K2pub; Symbolic.K1pub]
                  eq_refl
                  (ex_intro _ "1"%char (conj eq_refl eq_refl))
                  (or_intror (or_introl eq_refl)))).
  reflexivity.
Defined.

(** C6 (counterexample). A token signed by key 1 over the digest of the
    envelope, but with an [exp] in the past: its signature validates under
    the public key and its digest is the recomputed one, yet jwtVerify
    refuses it and verification fails. *)
Lemma valid_signature_and_digest_counterexample :
  Dated.signature_valid expired_ping_token Symbolic.K1pub = true
  /\ canonicalJson (rest_without (attach ping_envelope expired_ping_token) "sig")
     = Normal (dq "{'body':{},'from':'alice','id':'urn:uuid:A','intent':'ask','to':['bob'],'ts':'T'}")
  /\ Dated.embedded_digest expired_ping_token
     = Some (sha256_hex Dated.provider
               (dq "{'body':{},'from':'alice','id':'urn:uuid:A','intent':'ask','to':['bob'],'ts':'T'}"))
  /\ verifyEnvelopeSignature_trace Dated.provider
       (attach ping_envelope expired_ping_token) [Symbolic.K1pub]
     = ([Symbolic.K1pub], Throw validation_failed)
  /\ ~ succeeds_on_valid_signature_and_digest
        (attach ping_envelope expired_ping_token) Symbolic.K1pub.
Proof.
  split; [reflexivity|]. split; [reflexivity|]. split; [reflexivity|].
  split; [reflexivity|].
  intros H.
  specialize (H expired_ping_token _ eq_refl eq_refl eq_refl eq_refl).
  discriminate H.
Qed.

(** C6 (amended). The candidates are tried in the order given, and
    verification succeeds on the first key under which jwtVerify accepts
    the token and returns a payload whose [sha256] is the recomputed
    digest: the keys handed to jwtVerify are then the supplied ones up to
    and including that key. When no key is such, all keys are tried and
    verification fails. A key under which jwtVerify accepts the token with
    another digest, or refuses it, is passed over, and the outcome is that
    of the remaining candidates. *)
Theorem candidates_tried_in_order_until_first_match P env keys bytes :
  canonicalJson (rest_without env "sig") = Normal bytes ->
  (forall before k after payload,
      keys = (before ++ k :: after)%list ->
      (forall k' payload',
          In k' before ->
          jwtVerify P (Get env "sig") k' (Some algorithms) = Normal payload' ->
          Get payload' "sha256" <> JStr (sha256_hex P bytes)) ->
      jwtVerify P (Get env "sig") k (Some algorithms) = Normal payload ->
      Get payload "sha256" = JStr (sha256_hex P bytes) ->
      verifyEnvelopeSignature_trace P env keys = ((before ++ [k])%list, Normal tt))
  /\ ((forall k payload,
         In k keys ->
         jwtVerify P (Get env "sig") k (Some algorithms) = Normal payload ->
         Get payload "sha256" <> JStr (sha256_hex P bytes)) ->
      verifyEnvelopeSignature_trace P env keys = (keys, Throw validation_failed))
  /\ (forall k keys' payload,
        jwtVerify P (Get env "sig") k (Some algorithms) = Normal payload ->
        Get payload "sha256" <> JStr (sha256_hex P bytes) ->
        verifyEnvelopeSignature_trace P env (k :: keys')
        = (k :: fst (verifyEnvelopeSignature_trace P env keys'),
           snd (verifyEnvelopeSignature_trace P env keys')))
  /\ (forall k keys' e,
        jwtVerify P (Get env "sig") k (Some algorithms) = Throw e ->
        verifyEnvelopeSignature_trace P env (k :: keys')
        = (k :: fst (verifyEnvelopeSignature_trace P env keys'),
           snd (verifyEnvelopeSignature_trace P env keys'))).
Proof.
  intros Hbytes.
  assert (E : forall l, verifyEnvelopeSignature_trace P env l
                        = verify_loop P (Get env "sig") (sha256_hex P bytes) l)
    by (intros l; unfold verifyEnvelopeSignature_trace; now rewrite Hbytes).
  split; [|split; [|split]].
  - intros before k after payload -> Hbefore Hv Hd.
    rewrite E, verify_loop_spec.
    destruct (scanned_first
                (key_matches P (Get env "sig") (sha256_hex P bytes))
                before k after) as [-> ->]; [| |reflexivity].
    + intros k' Hk'. apply key_matches_false.
      intros payload' Hv'. now apply (Hbefore k').
    + apply key_matches_true. now exists payload.
  - intros Hnone. rewrite E, verify_loop_spec.
    assert (Hex : existsb (key_matches P (Get env "sig") (sha256_hex P bytes)) keys
                  = false).
    { apply existsb_false_on. intros k Hk. apply key_matches_false.
      intros payload Hv. now apply (Hnone k). }
    now rewrite Hex, scanned_none.
  - intros k keys' payload Hv Hd. rewrite !E. simpl. rewrite Hv.
    destruct (strict_eq_string (Get payload "sha256") (sha256_hex P bytes))
      eqn:Hs; [apply strict_eq_string_true in Hs; contradiction|].
    now destruct (verify_loop P (Get env "sig") (sha256_hex P bytes) keys').
  - intros k keys' e Hv. rewrite !E. simpl. rewrite Hv.
    now destruct (verify_loop P (Get env "sig") (sha256_hex P bytes) keys').
Qed.

Lemma candidates_tried_in_order_until_first_match_witness :
  verifyEnvelopeSignature_trace Dated.provider
    (attach ping_envelope dated_ping_token)
    [Symbolic.K2pub; Symbolic.K1pub; Symbolic.K2pub]
  = ([Symbolic.K2pub; Symbolic.K1pub], Normal tt).
Proof.
  apply (proj1 (candidates_tried_in_order_until_first_match
                  Dated.provider (attach ping_envelope dated_ping_token)
                  [Symbolic.K2pub; Symbolic.K1pub; Symbolic.K2pub] _ eq_refl)
           [Symbolic.K2pub] Symbolic.K1pub [Symbolic.K2pub]
           (digest_payload
              (dq "{'body':{},'from':'alice','id':'urn:uuid:A','intent':'ask','to':['bob'],'ts':'T'}"))).
  - reflexivity.
  - intros k' payload' [<-|[]] Hv. discriminate Hv.
  - reflexivity.
  - reflexivity.
Defined.

(** C7. Every call to jwtVerify is restricted to the fixed list ES256,
    EdDSA, RS256, which holds the elliptic-curve scheme ES256: a token
    whose header declares an algorithm outside that list validates under
    no key, and verification of an envelope carrying it is rejected
    whatever the candidate keys. *)
Theorem algorithm_outside_allow_list_rejected
  P (C : ProviderContract P) env keys tok :
  Get env "sig" = JStr tok ->
  (forall a, header_alg P tok = Some a ->
             ~ In a ["ES256"; "EdDSA"; "RS256"]) ->
  (forall k, throws (jwtVerify P (JStr tok) k (Some algorithms)) = true)
  /\ (forall k expected, key_matches P (JStr tok) expected k = false)
  /\ throws (verifyEnvelopeSignature P env keys) = true
  /\ In "ES256" algorithms.
Proof.
  intros Hsig Hout.
  assert (Hthrow : forall k,
             throws (jwtVerify P (JStr tok) k (Some algorithms)) = true).
  { intros k. simpl.
    destruct (compactVerify P tok k (Some algorithms)) as [payload|e] eqn:Hv;
      [|reflexivity].
    destruct (verify_allowed P C tok k algorithms payload Hv) as (a & Ha & Hin).
    destruct (Hout a Ha Hin). }
  assert (Hno : forall k expected, key_matches P (JStr tok) expected k = false).
  { intros k expected. unfold key_matches. specialize (Hthrow k).
    now destruct (jwtVerify P (JStr tok) k (Some algorithms)). }
  split; [exact Hthrow|]. split; [exact Hno|]. split; [|now left].
  unfold verifyEnvelopeSignature, verifyEnvelopeSignature_trace.
  rewrite Hsig.
  destruct (canonicalJson (rest_without env "sig")) as [bytes|e];
    [|reflexivity].
  rewrite verify_loop_spec. simpl.
  now rewrite existsb_false_all by (intros k; apply Hno).
Qed.

Lemma algorithm_outside_allow_list_rejected_witness :
  throws (verifyEnvelopeSignature Symbolic.provider
            (attach ping_envelope hs256_token) [Symbolic.K1pub]) = true.
Proof.
  apply (algorithm_outside_allow_list_rejected
           Symbolic.provider symbolic_contract
           (attach ping_envelope hs256_token) [Symbolic.K1pub] hs256_token).
  - reflexivity.
  - intros a Ha. injection Ha as <-. simpl.
    intros [H|[H|[H|[]]]]; discriminate H.
Defined.


(* ------------------------------------------------------------------ *)
(** ** Strings are quoted reversibly                                   *)
(* ------------------------------------------------------------------ *)

Lemma string_app_assoc (a b c : string) : (a ++ b) ++ c = a ++ (b ++ c).
Proof. induction a as [|x a IH]; simpl; [reflexivity|now rewrite IH]. Qed.

Lemma string_app_inv_head (a x y : string) : a ++ x = a ++ y -> x = y.
Proof.
  induction a as [|c a IH]; simpl; intros H; [exact H|].
  inversion H. now apply IH.
Qed.

Lemma read_quote_char c rest :
  read_quoted_body (quote_char c ++ rest) = cons_char c (read_quoted_body rest).
Proof.
  destruct c as [[] [] [] [] [] [] [] []]; reflexivity.
Qed.

Lemma read_quoted_body_quote s rest :
  read_quoted_body (quote_body s ++ String dquote rest) = Some (s, rest).
Proof.
  induction s as [|c s IH]; simpl; [reflexivity|].
  now rewrite string_app_assoc, read_quote_char, IH.
Qed.

Lemma read_quoted_QuoteJSONString s rest :
  read_quoted (QuoteJSONString s ++ rest) = Some (s, rest).
Proof.
  unfold QuoteJSONString. simpl.
  rewrite string_app_assoc. apply read_quoted_body_quote.
Qed.

(* ------------------------------------------------------------------ *)
(** ** A top-level string field shows in the canonical bytes           *)
(* ------------------------------------------------------------------ *)

Lemma Get_own o P v : Get o P = v -> v <> JUndefined -> HasOwn o P = true.
Proof.
  intros H Hv. destruct (HasOwn o P) eqn:E; [reflexivity|].
  rewrite Get_not_own in H by assumption. congruence.
Qed.

Lemma set_prop_keys o P v :
  HasOwn o P = true -> Object_keys (set_prop o P v) = Object_keys o.
Proof.
  unfold HasOwn, Object_keys.
  induction o as [|[k x] o IH]; simpl; [discriminate|].
  destruct (String.eqb k P); simpl; [reflexivity|].
  intros H. now rewrite IH.
Qed.

Lemma Get_set_prop_other o P v Q : P <> Q -> Get (set_prop o P v) Q = Get o Q.
Proof.
  intros Hne.
  induction o as [|[k x] o IH]; simpl.
  - now rewrite (proj2 (String.eqb_neq P Q) Hne).
  - destruct (String.eqb_spec k P) as [->|HkP]; simpl.
    + now rewrite (proj2 (String.eqb_neq P Q) Hne).
    + now rewrite IH.
Qed.

(** Changing what one name of the list serialises to changes one member
    of the list and nothing else. *)
Lemma members_change f g K k x y l :
  NoDup K -> In k K ->
  (forall P, P <> k -> f P = g P) ->
  f k = Normal (Some x) -> g k = Normal (Some y) ->
  members f K = Normal l ->
  exists l1 l2,
    l = app l1 ((QuoteJSONString k ++ ":" ++ x) :: l2)
    /\ members g K = Normal (app l1 ((QuoteJSONString k ++ ":" ++ y) :: l2)).
Proof.
  intros Hnd Hin Hoff Hf Hg. revert l.
  induction K as [|P K IH]; intros l Hm; [destruct Hin|].
  inversion Hnd as [|? ? Hnotin Hnd']; subst.
  simpl in Hm. simpl.
  destruct (string_dec P k) as [->|Hne].
  - rewrite Hf in Hm. rewrite Hg. simpl in *.
    assert (Hrest : members g K = members f K).
    { apply members_ext. intros Q HQ. symmetry. apply Hoff.
      intros ->. contradiction. }
    rewrite Hrest.
    destruct (members f K) as [rest|e]; simpl in *; [|discriminate].
    inversion Hm; subst. now exists [], rest.
  - destruct Hin as [->|Hin]; [congruence|].
    rewrite <- (Hoff P Hne).
    destruct (f P) as [r|e]; simpl in *; [|discriminate].
    destruct (members f K) as [rest|e]; simpl in *; [|discriminate].
    destruct (IH Hnd' Hin rest eq_refl) as (l1 & l2 & -> & Hg').
    rewrite Hg'. simpl. inversion Hm; subst.
    destruct r as [m|].
    + now exists ((QuoteJSONString P ++ ":" ++ m) :: l1), l2.
    + now exists l1, l2.
Qed.


Lemma concat_around l1 m l2 :
  String.concat "," (app l1 (m :: l2)) = joined_before l1 ++ m ++ joined_after l2.
Proof.
  induction l1 as [|x l1 IH]; simpl.
  - destruct l2; simpl; [induction m; simpl; congruence|reflexivity].
  - rewrite IH, !string_app_assoc.
    destruct l1; simpl; reflexivity.
Qed.

Lemma join_members_around op cl l1 m l2 :
  join_members op cl (app l1 (m :: l2))
  = (op ++ joined_before l1) ++ m ++ (joined_after l2 ++ cl).
Proof.
  unfold join_members.
  rewrite concat_around, !string_app_assoc.
  destruct l1; reflexivity.
Qed.

(** Replacing a top-level string by another string changes the canonical
    bytes, whenever canonicalisation returns. *)
Lemma canonicalJson_set_string E k s s' b :
  Get E k = JStr s -> s <> s' ->
  canonicalJson E = Normal b ->
  exists b', canonicalJson (set_prop E k (JStr s')) = Normal b' /\ b' <> b.
Proof.
  intros Hget Hne Hb.
  assert (Hown : HasOwn E k = true) by (apply (Get_own E k (JStr s)); congruence).
  rewrite canonicalJson_eq in Hb. rewrite canonicalJson_eq.
  rewrite set_prop_keys by assumption.
  set (K := PropertyList_of (Array_sort (Object_keys E))) in *.
  destruct (members (fun P => SerializeJSONProperty (Some K) (Get E P)) K)
    as [l|e] eqn:Hm; simpl in Hb; [|discriminate].
  inversion Hb; subst b. clear Hb.
  destruct (members_change
              (fun P => SerializeJSONProperty (Some K) (Get E P))
              (fun P => SerializeJSONProperty (Some K)
                          (Get (set_prop E k (JStr s')) P))
              K k (QuoteJSONString s) (QuoteJSONString s') l)
    as (l1 & l2 & -> & Hg).
  - apply PropertyList_of_NoDup.
  - unfold K. rewrite PropertyList_of_In, Array_sort_In.
    unfold Object_keys. unfold HasOwn in Hown.
    apply existsb_exists in Hown. destruct Hown as ([k' x] & Hin & Hk).
    apply String.eqb_eq in Hk. simpl in Hk. subst k'.
    apply in_map_iff. now exists (k, x).
  - intros P HP. rewrite Get_set_prop_other by congruence. reflexivity.
  - now rewrite Hget.
  - now rewrite Get_set_prop.
  - exact Hm.
  - rewrite Hg. cbn [bind]. eexists. split; [reflexivity|].
    rewrite !join_members_around.
    remember ("{" ++ joined_before l1) as pre eqn:Epre.
    remember (joined_after l2 ++ "}") as post eqn:Epost.
    remember (QuoteJSONString k) as qk eqn:Eqk.
    remember (QuoteJSONString s) as qs eqn:Eqs.
    remember (QuoteJSONString s') as qs' eqn:Eqs'.
    clear Epre Eqk. intros Heq.
    apply (string_app_inv_head pre) in Heq.
    rewrite !string_app_assoc in Heq.
    apply (string_app_inv_head qk) in Heq.
    apply (string_app_inv_head ":") in Heq.
    assert (R : read_quoted (qs' ++ post) = read_quoted (qs ++ post))
      by now rewrite Heq.
    subst qs qs'.
    rewrite !read_quoted_QuoteJSONString in R. congruence.
Qed.

(* ------------------------------------------------------------------ *)
(** ** What a verification outcome tells                               *)
(* ------------------------------------------------------------------ *)

Lemma verify_success_inv P env keys :
  verifyEnvelopeSignature P env keys = Normal tt ->
  exists tok bytes k payload,
    Get env "sig" = JStr tok
    /\ canonicalJson (rest_without env "sig") = Normal bytes
    /\ In k keys
    /\ compactVerify P tok k (Some algorithms) = Normal payload
    /\ Get payload "sha256" = JStr (sha256_hex P bytes).
Proof.
  unfold verifyEnvelopeSignature, verifyEnvelopeSignature_trace.
  destruct (canonicalJson (rest_without env "sig")) as [bytes|e];
    [|discriminate].
  rewrite verify_loop_spec. simpl.
  destruct (existsb _ keys) eqn:Hex; [|discriminate]. intros _.
  apply existsb_exists in Hex. destruct Hex as (k & Hin & Hk).
  unfold key_matches, jwtVerify in Hk.
  destruct (Get env "sig") as [| | | | |tok| |]; try discriminate.
  destruct (compactVerify P tok k (Some algorithms)) as [payload|e] eqn:Hv;
    [|discriminate].
  unfold strict_eq_string in Hk.
  destruct (Get payload "sha256") as [| | | | |d| |] eqn:Hd; try discriminate.
  apply String.eqb_eq in Hk. subst d.
  now exists tok, bytes, k, payload.
Qed.

Lemma verify_other_digest P (C : ProviderContract P) E E' priv pub tok b b' :
  HasOwn E' "sig" = false ->
  ES256_pair P priv pub ->
  signEnvelope P E priv = Normal tok ->
  canonicalJson E = Normal b ->
  canonicalJson E' = Normal b' ->
  sha256_hex P b <> sha256_hex P b' ->
  verifyEnvelopeSignature_trace P (attach E' tok) [pub]
  = ([pub], Throw validation_failed).
Proof.
  intros Hunsigned Hpair Hsign Hb Hb' Hdiff.
  unfold signEnvelope in Hsign. rewrite Hb in Hsign. simpl in Hsign.
  destruct (sign_verify P C priv pub (sha256_hex P b) algorithms Hpair)
    as (tok' & Hs & Hv); [now left|].
  rewrite Hs in Hsign. inversion Hsign; subst tok'. clear Hsign.
  unfold verifyEnvelopeSignature_trace, attach.
  rewrite Get_set_prop, rest_without_set_prop, Hb' by assumption.
  simpl. rewrite Hv. simpl.
  now rewrite (proj2 (String.eqb_neq _ _) Hdiff).
Qed.

Lemma HasOwn_set_prop o k v P :
  HasOwn o k = true -> HasOwn (set_prop o k v) P = HasOwn o P.
Proof.
  unfold HasOwn.
  induction o as [|[k' x] o IH]; simpl; [discriminate|].
  destruct (String.eqb k' k) eqn:E; simpl; [reflexivity|].
  intros H. now rewrite IH.
Qed.

Lemma rest_without_reorder o1 o2 k :
  reorder_props o1 o2 -> reorder_props (rest_without o1 k) (rest_without o2 k).
Proof.
  unfold rest_without.
  induction 1 as [|k0 x y o1 o2 Hxy _ IH|k1 k2 x1 x2 o Hne|o1 o2 o3 _ IH1 _ IH2];
    simpl.
  - constructor.
  - destruct (String.eqb k0 k); simpl; [exact IH|now constructor].
  - destruct (String.eqb k1 k), (String.eqb k2 k); simpl;
      try apply reorder_props_refl.
    now constructor.
  - now apply rp_trans with (o2 := filter (fun kv => negb (String.eqb (fst kv) k)) o2).
Qed.

Lemma jwtVerify_reorder P x y k a :
  reorder x y -> jwtVerify P x k a = jwtVerify P y k a.
Proof. intros H. inversion H; reflexivity. Qed.

Lemma jwtVerify_Get_reorder P o1 o2 :
  reorder_props o1 o2 ->
  forall Q k a, jwtVerify P (Get o1 Q) k a = jwtVerify P (Get o2 Q) k a.
Proof.
  induction 1 as [|k0 x y o1 o2 Hxy _ IH|k1 k2 x1 x2 o Hne|o1 o2 o3 _ IH1 _ IH2];
    intros Q k a; simpl.
  - reflexivity.
  - destruct (String.eqb k0 Q); [now apply jwtVerify_reorder|apply IH].
  - destruct (String.eqb_spec k1 Q), (String.eqb_spec k2 Q);
      try reflexivity. congruence.
  - now rewrite IH1.
Qed.

Lemma verify_trace_reorder P env env' keys :
  reorder_props env env' ->
  verifyEnvelopeSignature_trace P env keys
  = verifyEnvelopeSignature_trace P env' keys.
Proof.
  intros H. unfold verifyEnvelopeSignature_trace.
  rewrite (canonicalJson_reorder_props _ _ (rest_without_reorder _ _ "sig" H)).
  destruct (canonicalJson (rest_without env' "sig")); [|reflexivity].
  apply verify_loop_ext. intros k. now apply jwtVerify_Get_reorder.
Qed.

(* ------------------------------------------------------------------ *)
(** ** Further properties of canonicalJson                             *)
(* ------------------------------------------------------------------ *)

(** X1. A top-level string field is covered by the canonical bytes:
    whenever canonicalJson returns for an envelope, replacing the string
    held by one of its top-level fields by a different string gives
    canonical bytes that differ. *)
Theorem canonicalJson_top_level_string_sensitive E k s s' b :
  Get E k = JStr s -> s <> s' ->
  canonicalJson E = Normal b ->
  exists b', canonicalJson (set_prop E k (JStr s')) = Normal b' /\ b' <> b.
Proof. apply canonicalJson_set_string. Qed.

Lemma canonicalJson_top_level_string_sensitive_witness :
  exists b',
    canonicalJson ping_other_id = Normal b'
    /\ b' <> dq "{'body':{},'from':'alice','id':'urn:uuid:A','intent':'ask','to':['bob'],'ts':'T'}".
Proof.
  apply (canonicalJson_top_level_string_sensitive
           ping_envelope "id" "urn:uuid:A" "urn:uuid:B").
  - reflexivity.
  - discriminate.
  - reflexivity.
Defined.

(* ------------------------------------------------------------------ *)
(** ** Further properties of verifyEnvelopeSignature                   *)
(* ------------------------------------------------------------------ *)

(** X3. Verification succeeds only on evidence: the [sig] field is a
    string, the unsigned rest canonicalises, and one of the supplied keys
    validates the token under the accepted algorithms with a payload whose
    [sha256] is the digest of those canonical bytes. *)
Theorem verify_success_needs_matching_key P env keys :
  verifyEnvelopeSignature P env keys = Normal tt ->
  exists tok bytes k payload,
    Get env "sig" = JStr tok
    /\ canonicalJson (rest_without env "sig") = Normal bytes
    /\ In k keys
    /\ compactVerify P tok k (Some algorithms) = Normal payload
    /\ Get payload "sha256" = JStr (sha256_hex P bytes).
Proof. apply verify_success_inv. Qed.

Lemma verify_success_needs_matching_key_witness :
  exists tok bytes k payload,
    Get ping_signed "sig" = JStr tok
    /\ canonicalJson (rest_without ping_signed "sig") = Normal bytes
    /\ In k [Symbolic.K2pub; Symbolic.K1pub]
    /\ compactVerify Symbolic.provider tok k (Some algorithms) = Normal payload
    /\ Get payload "sha256" = JStr (sha256_hex Symbolic.provider bytes).
Proof.
  apply (verify_success_needs_matching_key Symbolic.provider ping_signed
           [Symbolic.K2pub; Symbolic.K1pub]).
  reflexivity.
Defined.

(** X4. The token is bound to the digest it was made for: a token signed
    for one envelope, attached to an unsigned envelope whose canonical
    bytes hash to another digest, is rejected under the signer's public
    key, after that one key was tried. *)
Theorem token_rejected_on_other_digest
  P (C : ProviderContract P) E E' priv pub tok b b' :
  HasOwn E' "sig" = false ->
  ES256_pair P priv pub ->
  signEnvelope P E priv = Normal tok ->
  canonicalJson E = Normal b ->
  canonicalJson E' = Normal b' ->
  sha256_hex P b <> sha256_hex P b' ->
  verifyEnvelopeSignature_trace P (attach E' tok) [pub]
  = ([pub], Throw validation_failed).
Proof. apply verify_other_digest. exact C. Qed.

Lemma token_rejected_on_other_digest_witness :
  verifyEnvelopeSignature_trace Symbolic.provider
    (attach ping_other_id ping_token) [Symbolic.K1pub]
  = ([Symbolic.K1pub], Throw validation_failed).
Proof.
  apply (token_rejected_on_other_digest
           Symbolic.provider symbolic_contract
           ping_envelope ping_other_id Symbolic.K1 Symbolic.K1pub ping_token
           (dq "{'body':{},'from':'alice','id':'urn:uuid:A','intent':'ask','to':['bob'],'ts':'T'}")
           (dq "{'body':{},'from':'alice','id':'urn:uuid:B','intent':'ask','to':['bob'],'ts':'T'}")).
  - reflexivity.
  - exists "1"%char. split; reflexivity.
  - reflexivity.
  - reflexivity.
  - reflexivity.
  - simpl. discriminate.
Defined.

(** X5. Tampering with a top-level string field is detected: when the
    string of a top-level field of a signed envelope is replaced by a
    different one and the signature kept, verification under the signer's
    public key is rejected, provided the hash does not collide on the two
    canonical texts. *)
Theorem tampered_top_level_string_rejected
  P (C : ProviderContract P) E k s s' priv pub tok :
  HasOwn E "sig" = false ->
  Get E k = JStr s -> s <> s' ->
  ES256_pair P priv pub ->
  signEnvelope P E priv = Normal tok ->
  (forall b b',
      canonicalJson E = Normal b ->
      canonicalJson (set_prop E k (JStr s')) = Normal b' ->
      b <> b' -> sha256_hex P b <> sha256_hex P b') ->
  verifyEnvelopeSignature_trace P (attach (set_prop E k (JStr s')) tok) [pub]
  = ([pub], Throw validation_failed).
Proof.
  intros Hunsigned Hget Hne Hpair Hsign Hhash.
  assert (Hown : HasOwn E k = true) by (apply (Get_own E k (JStr s)); congruence).
  destruct (canonicalJson E) as [b|e] eqn:Hb;
    [|unfold signEnvelope in Hsign; rewrite Hb in Hsign; discriminate].
  destruct (canonicalJson_set_string E k s s' b Hget Hne Hb) as (b' & Hb' & Hdiff).
  apply (verify_other_digest P C E (set_prop E k (JStr s')) priv pub tok b b');
    try assumption.
  - now rewrite HasOwn_set_prop.
  - apply Hhash; congruence.
Qed.

Lemma tampered_top_level_string_rejected_witness :
  verifyEnvelopeSignature_trace Symbolic.provider
    (attach ping_other_id ping_token) [Symbolic.K1pub]
  = ([Symbolic.K1pub], Throw validation_failed).
Proof.
  apply (tampered_top_level_string_rejected
           Symbolic.provider symbolic_contract
           ping_envelope "id" "urn:uuid:A" "urn:uuid:B"
           Symbolic.K1 Symbolic.K1pub ping_token).
  - reflexivity.
  - reflexivity.
  - discriminate.
  - exists "1"%char. split; reflexivity.
  - reflexivity.
  - intros b b' _ _ Hbb'. exact Hbb'.
Defined.

(** X6. The order in which the fields of the received envelope were
    inserted, [sig] included and at any depth, has no influence on
    verification: the keys tried and the outcome are the same. *)
Theorem verify_insertion_order_independent P env env' keys :
  reorder_props env env' ->
  verifyEnvelopeSignature_trace P env keys
  = verifyEnvelopeSignature_trace P env' keys.
Proof. apply verify_trace_reorder. Qed.

Lemma verify_insertion_order_independent_witness :
  verifyEnvelopeSignature_trace Symbolic.provider small_signed
    [Symbolic.K2pub; Symbolic.K1pub]
  = verifyEnvelopeSignature_trace Symbolic.provider small_signed_reordered
      [Symbolic.K2pub; Symbolic.K1pub].
Proof.
  apply (verify_insertion_order_independent Symbolic.provider
           small_signed small_signed_reordered).
  apply rp_trans with
    (o2 := [("id", JStr "A");
            ("sig", JStr (dq "1ES256.{'id':'A','ts':'T'}"));
            ("ts", JStr "T")]).
  { apply rp_swap. discriminate. }
  apply rp_trans with
    (o2 := [("id", JStr "A"); ("ts", JStr "T");
            ("sig", JStr (dq "1ES256.{'id':'A','ts':'T'}"))]).
  { apply rp_cons; [apply ro_same|]. apply rp_swap. discriminate. }
  apply rp_swap. discriminate.
Defined.

(* ------------------------------------------------------------------ *)
(** ** UAMPClient.send                                                 *)
(* ------------------------------------------------------------------ *)

Lemma envNoSig_unsigned amb bodyText to intent :
  HasOwn (envNoSig_of amb bodyText to intent) "sig" = false.
Proof. reflexivity. Qed.

Lemma envNoSig_bigint_free amb bodyText to intent :
  bigint_free (JObj (envNoSig_of amb bodyText to intent)) = true.
Proof. reflexivity. Qed.

Lemma envNoSig_body_text amb bodyText bodyText' to intent :
  canonicalJson (envNoSig_of amb bodyText to intent)
  = canonicalJson (envNoSig_of amb bodyText' to intent).
Proof. reflexivity. Qed.

Lemma send_wire amb bodyText to intent tok :
  exists wire,
    JSON_stringify (JObj (attach (envNoSig_of amb bodyText to intent) tok)) None
    = Normal (Some wire).
Proof. eexists. reflexivity. Qed.

Lemma send_signs P (C : ProviderContract P) amb bodyText to intent priv pub :
  ES256_pair P priv pub ->
  exists tok, signEnvelope P (envNoSig_of amb bodyText to intent) priv = Normal tok.
Proof.
  intros Hpair.
  destruct (canonicalJson_total _ (envNoSig_bigint_free amb bodyText to intent))
    as [bytes Hb].
  destruct (sign_verify P C priv pub (sha256_hex P bytes) algorithms Hpair)
    as (tok & Hs & _); [now left|].
  exists tok. unfold signEnvelope. now rewrite Hb.
Qed.

(** X7. What send posts is authentic: with a signing key of an ES256 pair,
    building and signing the envelope never fails, exactly one request is
    made, a POST to [baseUrl + "/v1/messages"] whose body is the plain JSON
    text of the signed envelope, and that envelope verifies against every
    candidate list holding the public key. *)
Theorem send_posts_verifiable_envelope
  P (C : ProviderContract P) request (c : UAMPClient P) amb bodyText to intent
  pub keys :
  ES256_pair P (key (opts c)) pub -> In pub keys ->
  exists tok wire,
    signEnvelope P (envNoSig_of amb bodyText to (intent_or_ask intent))
      (key (opts c)) = Normal tok
    /\ JSON_stringify
         (JObj (attach (envNoSig_of amb bodyText to (intent_or_ask intent)) tok))
         None = Normal (Some wire)
    /\ verifyEnvelopeSignature P
         (attach (envNoSig_of amb bodyText to (intent_or_ask intent)) tok) keys
       = Normal tt
    /\ send P request c amb bodyText to intent
       = (res <- request (baseUrl (opts c) ++ "/v1/messages")
                   {| method := "POST"; body := Some wire;
                      headers := headers_of (token (opts c));
                      dispatcher := agent c |} ;;
          after_response (stream_uuid amb) res).
Proof.
  intros Hpair Hin.
  destruct (send_signs P C amb bodyText to (intent_or_ask intent) _ _ Hpair)
    as [tok Htok].
  destruct (send_wire amb bodyText to (intent_or_ask intent) tok) as [wire Hwire].
  exists tok, wire. split; [exact Htok|]. split; [exact Hwire|]. split.
  - apply (verify_signed P C
             (envNoSig_of amb bodyText to (intent_or_ask intent))
             (envNoSig_of amb bodyText to (intent_or_ask intent))
             (key (opts c)) pub keys tok);
      try assumption; reflexivity.
  - unfold send. rewrite Htok. cbn [bind]. rewrite Hwire. reflexivity.
Qed.

Lemma send_posts_verifiable_envelope_witness :
  exists tok wire,
    signEnvelope Symbolic.provider
      (envNoSig_of demo_ambient "Hello UAMP" "did:web:worker.example"
         (intent_or_ask None))
      (key (opts demo_client)) = Normal tok
    /\ JSON_stringify
         (JObj (attach (envNoSig_of demo_ambient "Hello UAMP"
                          "did:web:worker.example" (intent_or_ask None)) tok))
         None = Normal (Some wire)
    /\ verifyEnvelopeSignature Symbolic.provider
         (attach (envNoSig_of demo_ambient "Hello UAMP"
                    "did:web:worker.example" (intent_or_ask None)) tok)
         [Symbolic.K2pub; Symbolic.K1pub]
       = Normal tt
    /\ send Symbolic.provider (answering 202 "") demo_client demo_ambient
         "Hello UAMP" "did:web:worker.example" None
       = (res <- answering 202 ""
                   (baseUrl (opts demo_client) ++ "/v1/messages")
                   {| method := "POST"; body := Some wire;
                      headers := headers_of (token (opts demo_client));
                      dispatcher := agent demo_client |} ;;
          after_response (stream_uuid demo_ambient) res).
Proof.
  apply (send_posts_verifiable_envelope Symbolic.provider symbolic_contract
           (answering 202 "") demo_client demo_ambient
           "Hello UAMP" "did:web:worker.example" None Symbolic.K1pub
           [Symbolic.K2pub; Symbolic.K1pub]).
  - exists "1"%char. split; reflexivity.
  - right. left. reflexivity.
Defined.

(** X8. The outcomes of send, for a signing key of an ES256 pair: a
    failure of the request is passed on; status 202 returns the stream id
    drawn first, which is the [stream_id] of the envelope; any other
    status, 200 included, throws "Unexpected status <code>: <text>", or
    what reading the text threw. *)
Theorem send_outcome
  P (C : ProviderContract P) (c : UAMPClient P) amb bodyText to intent pub r :
  ES256_pair P (key (opts c)) pub ->
  send P (fun _ _ => r) c amb bodyText to intent
  = match r with
    | Throw e => Throw e
    | Normal res =>
        if Z.eqb (statusCode res) 202
        then Normal (Some (stream_uuid amb))
        else match body_text res with
             | Normal text =>
                 Throw (Error ("Unexpected status "
                               ++ Number_toString (statusCode res)
                               ++ ": " ++ text))
             | Throw e => Throw e
             end
    end
  /\ Get (envNoSig_of amb bodyText to (intent_or_ask intent)) "stream_id"
     = JStr (stream_uuid amb).
Proof.
  intros Hpair. split; [|reflexivity].
  destruct (send_signs P C amb bodyText to (intent_or_ask intent) _ _ Hpair)
    as [tok Htok].
  destruct (send_wire amb bodyText to (intent_or_ask intent) tok) as [wire Hwire].
  unfold send. rewrite Htok. cbn [bind]. rewrite Hwire. cbn [bind].
  destruct r as [res|e]; cbn [bind]; [|reflexivity].
  unfold after_response.
  destruct (Z.eqb (statusCode res) 202); [reflexivity|].
  now destruct (body_text res).
Qed.

Lemma send_outcome_witness :
  send Symbolic.provider (answering 200 "ok") demo_client demo_ambient
    "Hello UAMP" "did:web:worker.example" None
  = Throw (Error "Unexpected status 200: ok").
Proof.
  apply (proj1 (send_outcome Symbolic.provider symbolic_contract
                  demo_client demo_ambient "Hello UAMP"
                  "did:web:worker.example" None Symbolic.K1pub
                  (Normal {| statusCode := 200; body_text := Normal "ok" |})
                  (ex_intro _ "1"%char (conj eq_refl eq_refl)))).
Defined.

(** X9. The text given to send is not covered by the signature it makes:
    with everything else equal, the digest that is signed is the same
    for two texts, and the envelope carrying one text with a signature
    made for the other verifies under the public key of the signing key. *)
Theorem send_signature_ignores_body_text
  P (C : ProviderContract P) amb bodyText bodyText' to intent priv pub keys tok :
  ES256_pair P priv pub -> In pub keys ->
  signEnvelope P (envNoSig_of amb bodyText to intent) priv = Normal tok ->
  signed_digest P (envNoSig_of amb bodyText' to intent)
  = signed_digest P (envNoSig_of amb bodyText to intent)
  /\ verifyEnvelopeSignature P
       (attach (envNoSig_of amb bodyText' to intent) tok) keys
     = Normal tt.
Proof.
  intros Hpair Hin Hsign. split.
  - unfold signed_digest.
    now rewrite (envNoSig_body_text amb bodyText' bodyText to intent).
  - apply (verify_signed P C (envNoSig_of amb bodyText to intent)
             (envNoSig_of amb bodyText' to intent) priv pub keys tok);
      try assumption; reflexivity.
Qed.

Lemma send_signature_ignores_body_text_witness :
  verifyEnvelopeSignature Symbolic.provider
    (attach (envNoSig_of demo_ambient "pay 1000" "bob" ask)
       (dq "1ES256.{'body':{},'delta_window':64,'from':'did:web:client.example','id':'urn:uuid:A','intent':'ask','stream_id':'S','to':['bob'],'ts':'T'}"))
    [Symbolic.K1pub]
  = Normal tt.
Proof.
  apply (proj2 (send_signature_ignores_body_text
                  Symbolic.provider symbolic_contract demo_ambient
                  "pay 1" "pay 1000" "bob" ask Symbolic.K1 Symbolic.K1pub
                  [Symbolic.K1pub] _
                  (ex_intro _ "1"%char (conj eq_refl eq_refl))
                  (or_introl eq_refl) eq_refl)).
Defined.

(* ------------------------------------------------------------------ *)
(** ** Candidate lists compose                                         *)
(* ------------------------------------------------------------------ *)

Lemma existsb_Permutation {A} (f : A -> bool) l l' :
  Permutation l l' -> existsb f l = existsb f l'.
Proof.
  induction 1; simpl.
  - reflexivity.
  - now f_equal.
  - now rewrite !orb_assoc, (orb_comm (f y) (f x)).
  - congruence.
Qed.

Lemma verify_outcome_spec P env keys :
  verifyEnvelopeSignature P env keys
  = match canonicalJson (rest_without env "sig") with
    | Throw e => Throw e
    | Normal bytes =>
        if existsb (key_matches P (Get env "sig") (sha256_hex P bytes)) keys
        then Normal tt else Throw validation_failed
    end.
Proof.
  unfold verifyEnvelopeSignature, verifyEnvelopeSignature_trace.
  destruct (canonicalJson (rest_without env "sig")); [|reflexivity].
  now rewrite verify_loop_spec.
Qed.

(** X10. Candidate lists compose: verification against two lists put end
    to end succeeds when it succeeds against the first, and otherwise has
    the outcome of the second; and the outcome, unlike the list of keys
    tried, does not depend on the order of the candidates. *)
Theorem verify_candidates_compose P env keys1 keys2 :
  verifyEnvelopeSignature P env (keys1 ++ keys2)%list
  = match verifyEnvelopeSignature P env keys1 with
    | Normal _ => Normal tt
    | Throw _ => verifyEnvelopeSignature P env keys2
    end
  /\ (forall keys keys',
        Permutation keys keys' ->
        verifyEnvelopeSignature P env keys = verifyEnvelopeSignature P env keys').
Proof.
  split.
  - rewrite !verify_outcome_spec.
    destruct (canonicalJson (rest_without env "sig")) as [bytes|e];
      [|reflexivity].
    rewrite existsb_app.
    now destruct (existsb _ keys1).
  - intros keys keys' Hperm. rewrite !verify_outcome_spec.
    destruct (canonicalJson (rest_without env "sig")) as [bytes|e];
      [|reflexivity].
    now rewrite (existsb_Permutation _ _ _ Hperm).
Qed.

Lemma verify_candidates_compose_witness :
  verifyEnvelopeSignature Symbolic.provider ping_signed
    [Symbolic.K2pub; Symbolic.K1pub]
  = verifyEnvelopeSignature Symbolic.provider ping_signed
      [Symbolic.K1pub; Symbolic.K2pub].
Proof.
  apply (proj2 (verify_candidates_compose Symbolic.provider ping_signed [] [])).
  apply perm_swap.
Defined.

(** X11. Strings are written reversibly: reading back the quoted form of
    a string, whatever text follows it, returns the string and that text,
    so that different strings never share a quoted form. *)
Theorem QuoteJSONString_read_back s rest :
  read_quoted (QuoteJSONString s ++ rest) = Some (s, rest).
Proof. apply read_quoted_QuoteJSONString. Qed.
